(** * node-cli: retrying task runner and version check (src/utils/index.ts)

    A shallow embedding of [loading], [getNpmLatestVersion], [gt] and
    [checkVersion], together with the fragment of JavaScript they rely on:
    strings as sequences of UTF-16 code units, IEEE-754 doubles, the
    [Number] conversion, property reads, exceptions and [try]/[catch]. *)

From Stdlib Require Import ZArith NArith List Bool String Ascii Lia.
From Stdlib Require Import Floats.SpecFloat.
From Equations Require Import Equations.
From Equations.Prop Require Import Logic.
Import ListNotations.

Set Implicit Arguments.
Set Warnings "-register-all".
Open Scope Z_scope.

(* ===================================================================== *)
(** * JavaScript values *)
(* ===================================================================== *)

Module JS.

(** A JavaScript string is the sequence of its UTF-16 code units. *)
Definition jsstring := list N.

(** Literals of the source are written as Rocq strings; every character of
    the literals used below is below U+0080, hence one code unit. *)
Definition lit (s : string) : jsstring :=
  List.map N_of_ascii (list_ascii_of_string s).

(** A JavaScript number is a binary64 value. *)
Definition number := spec_float.

Definition prec : Z := 53.
Definition emax : Z := 1024.

Definition NaN : number := S754_nan.
Definition pzero : number := S754_zero false.

(** [of_Z n] is the double nearest to the integer [n] (ties to even). *)
Definition of_Z (n : Z) : number := binary_normalize prec emax n 0 false.

(** The values that flow through the module: what a callback resolves to,
    what the registry answers, what a function returns. *)
Inductive jsval : Type :=
| JUndefined
| JNull
| JBool (b : bool)
| JNum (x : number)
| JStr (s : jsstring)
| JArr (elems : list jsval)
| JObj (props : list (jsstring * jsval)).

(** What can be thrown: the [TypeError] the engine raises on a bad property
    read or call, or any value thrown or rejected by foreign code. *)
Inductive exn : Type :=
| TypeError (what : string)
| Thrown (v : jsval).

(** The completion of an evaluation (for an async function: the way its
    promise settles). *)
Inductive completion (A : Type) : Type :=
| Return (a : A)
| Throw (e : exn).
Arguments Throw {A} e.

Definition bind {A B} (c : completion A) (k : A -> completion B) : completion B :=
  match c with
  | Return a => k a
  | Throw e => Throw e
  end.

Definition is_throw {A} (c : completion A) : bool :=
  match c with Throw _ => true | Return _ => false end.

(** ** Strict inequality and [>] on numbers *)

(** [x !== y] for two numbers: [NaN] differs from everything, itself
    included; [+0] and [-0] do not differ. *)
Definition num_strict_ne (x y : number) : bool := negb (SFeqb x y).

(** [x > y] for two numbers: false as soon as one of them is [NaN]. *)
Definition num_gt (x y : number) : bool := SFltb y x.

(** ** [String.prototype.split] with a one-unit separator *)

(** ["a.b".split(".")] is [["a"; "b"]], [""] splits into [[""]]: the
    result is never empty. *)
Fixpoint split (sep : N) (s : jsstring) : list jsstring :=
  match s with
  | [] => [[]]
  | c :: r =>
      if N.eqb c sep then [] :: split sep r
      else match split sep r with
           | x :: xs => (c :: x) :: xs
           | [] => [[c]]
           end
  end.

(** ** [Number(string)]: StringToNumber of ECMA-262 *)

(** StrWhiteSpaceChar: WhiteSpace (TAB, VT, FF, SP, NBSP, ZWNBSP and the
    space separators) and LineTerminator (LF, CR, LS, PS). *)
Definition is_ws (c : N) : bool :=
  let c := Z.of_N c in
  ((9 <=? c) && (c <=? 13)) || (c =? 32) || (c =? 160) || (c =? 5760)
  || ((8192 <=? c) && (c <=? 8202)) || (c =? 8232) || (c =? 8233)
  || (c =? 8239) || (c =? 8287) || (c =? 12288) || (c =? 65279).

Fixpoint drop_ws (s : jsstring) : jsstring :=
  match s with
  | c :: r => if is_ws c then drop_ws r else s
  | [] => []
  end.

Definition trim (s : jsstring) : jsstring :=
  rev (drop_ws (rev (drop_ws s))).

(** The value of a digit in a radix up to 16, if it is one. *)
Definition digit_of (radix : N) (c : N) : option N :=
  let v :=
    if (48 <=? c)%N && (c <=? 57)%N then Some (c - 48)%N
    else if (97 <=? c)%N && (c <=? 102)%N then Some (c - 87)%N
    else if (65 <=? c)%N && (c <=? 70)%N then Some (c - 55)%N
    else None in
  match v with
  | Some d => if (d <? radix)%N then Some d else None
  | None => None
  end.

(** The longest prefix of digits, as their values, and what follows it. *)
Fixpoint span_digits (radix : N) (s : jsstring) : list N * jsstring :=
  match s with
  | c :: r =>
      match digit_of radix c with
      | Some d => let '(ds, rest) := span_digits radix r in (d :: ds, rest)
      | None => ([], s)
      end
  | [] => ([], [])
  end.

Definition digits_value (radix : N) (ds : list N) : N :=
  fold_left (fun acc d => (acc * radix + d)%N) ds 0%N.

(** The double nearest to [m * 10^e], with the sign [sx]; a zero mantissa
    keeps the sign. The quotient by a power of ten is rounded once, from
    the integer quotient and the position of the remainder. *)
Definition round_decimal (sx : bool) (m : N) (e : Z) : number :=
  match m with
  | N0 => S754_zero sx
  | Npos p =>
      if 0 <=? e then
        binary_round prec emax sx (Z.to_pos (Zpos p * 10 ^ e)) 0
      else
        let '(mz, ez, lz) :=
          SFdiv_core_binary prec emax (Zpos p) 0 (10 ^ (- e)) 0 in
        binary_round_aux prec emax sx mz ez lz
  end.

(** A leading ["+"] or ["-"], as "is negative", and what follows it. *)
Definition strip_sign (s : jsstring) : bool * jsstring :=
  match s with
  | 43%N :: r => (false, r)
  | 45%N :: r => (true, r)
  | _ => (false, s)
  end.

(** An optionally signed run of decimal digits that ends the string: the
    SignedInteger of an ExponentPart. *)
Definition signed_integer (s : jsstring) : option Z :=
  let '(neg, body) := strip_sign s in
  match span_digits 10 body with
  | (d :: ds, []) =>
      let v := Z.of_N (digits_value 10 (d :: ds)) in
      Some (if neg then - v else v)
  | _ => None
  end.

(** StrUnsignedDecimalLiteral without [Infinity]: digits, an optional
    fraction, an optional exponent; the result is a mantissa and a power
    of ten. At least one digit is required before the exponent. *)
Definition unsigned_decimal (s : jsstring) : option (N * Z) :=
  let '(ip, r1) := span_digits 10 s in
  let '(fp, r2) :=
    match r1 with
    | 46%N :: r => span_digits 10 r
    | _ => ([], r1)
    end in
  match ip ++ fp with
  | [] => None
  | ds =>
      let m := digits_value 10 ds in
      let shift := Z.of_nat (List.length fp) in
      match r2 with
      | [] => Some (m, - shift)
      | c :: r =>
          if N.eqb c 101 || N.eqb c 69 then
            match signed_integer r with
            | Some x => Some (m, x - shift)
            | None => None
            end
          else None
      end
  end.

(** StrDecimalLiteral: an optional sign, then [Infinity] or an unsigned
    decimal literal. *)
Definition decimal_literal (s : jsstring) : number :=
  let '(neg, body) := strip_sign s in
  if list_eq_dec N.eq_dec body (lit "Infinity") then S754_infinity neg
  else match unsigned_decimal body with
       | Some (m, e) => round_decimal neg m e
       | None => NaN
       end.

(** NonDecimalIntegerLiteral: [0x], [0o] or [0b] (either case) followed by
    at least one digit of that radix and nothing else; no sign. *)
Definition radix_of_prefix (c : N) : option N :=
  if N.eqb c 120 || N.eqb c 88 then Some 16%N
  else if N.eqb c 111 || N.eqb c 79 then Some 8%N
  else if N.eqb c 98 || N.eqb c 66 then Some 2%N
  else None.

Definition non_decimal_literal (s : jsstring) : option number :=
  match s with
  | z :: c :: r =>
      match radix_of_prefix c with
      | Some radix =>
          if N.eqb z 48 then
            match span_digits radix r with
            | (d :: ds, []) =>
                Some (of_Z (Z.of_N (digits_value radix (d :: ds))))
            | _ => Some NaN
            end
          else None
      | None => None
      end
  | _ => None
  end.

(** [Number(s)] for a string [s]: white space is trimmed, the empty string
    is [+0], anything that is not a numeric literal is [NaN]. *)
Definition Number (s : jsstring) : number :=
  match trim s with
  | [] => pzero
  | t =>
      match non_decimal_literal t with
      | Some x => x
      | None => decimal_literal t
      end
  end.

(** The code unit of ["-"]. *)
Definition minus : N := 45.

(** [x] is not below zero: [0 > x] is false ([NaN] included). *)
Definition not_below_zero (x : number) : Prop := num_gt pzero x = false.

(** The mantissa of the double of a positive integer below [2^53]: the
    integer, shifted left until it has 53 binary digits. *)
Definition aligned (p : positive) : positive :=
  match (53 - Zpos (digits2_pos p))%Z with
  | Zpos k => Pos.iter xO p k
  | _ => p
  end.

(** A decimal digit, a non-empty run of them, and the integer the run
    denotes. *)
Definition is_decimal_digit (c : N) : bool := ((48 <=? c) && (c <=? 57))%N.

Definition plain (s : jsstring) : Prop :=
  s <> [] /\ Forall (fun c => is_decimal_digit c = true) s.

Definition plain_value (s : jsstring) : Z :=
  Z.of_N (digits_value 10 (List.map (fun c => (c - 48)%N) s)).

End JS.

Import JS.

(* ===================================================================== *)
(** * Version comparison: [gt] *)
(* ===================================================================== *)

Module Version.

(** The code unit of ["."]. *)
Definition dot : N := 46.

(** [v.split(".").map(Number).concat(Array(len).fill(0)).slice(0, len)]
    for a string [v] and a length [len] that is a non-negative integer
    ([Array(len)] raises a RangeError on any other number). *)
Definition pad (len : nat) (v : jsstring) : list number :=
  firstn len (List.map Number (split dot v) ++ repeat pzero len).

(** [a[i]]: a number inside the array, [undefined] (here [None]) outside. *)
Definition at_index (a : list number) (i : nat) : option number :=
  nth_error a i.

(** [x !== y] and [x > y] on array reads; [undefined] converts to [NaN]
    under [>], and is strictly equal to itself only. *)
Definition strict_ne (x y : option number) : bool :=
  match x, y with
  | Some p, Some q => num_strict_ne p q
  | None, None => false
  | _, _ => true
  end.

Definition greater (x y : option number) : bool :=
  match x, y with
  | Some p, Some q => num_gt p q
  | _, _ => false
  end.

(** [for (let i = ...; i < len; i++) { if (a[i] !== b[i]) return
    a[i] > b[i]; } return false;] with [todo = len - i] rounds left. *)
Fixpoint gt_loop (a b : list number) (i todo : nat) : bool :=
  match todo with
  | O => false
  | S todo' =>
      if strict_ne (at_index a i) (at_index b i)
      then greater (at_index a i) (at_index b i)
      else gt_loop a b (S i) todo'
  end.

(** [gt] on two strings. *)
Definition gt_strings (v1 v2 : jsstring) (len : nat) : bool :=
  gt_loop (pad len v1) (pad len v2) 0 len.

(** [v.split(".")] on an arbitrary value: only strings have [split]. *)
Definition as_version (v : jsval) : completion jsstring :=
  match v with
  | JUndefined => Return (lit "0.0.0")
  | JStr s => Return s
  | JNull => Throw (TypeError "Cannot read properties of null (reading 'split')")
  | _ => Throw (TypeError "v.split is not a function")
  end.

(** [function gt(v1 = "0.0.0", v2 = "0.0.0", len = 3)]: a parameter default
    replaces [undefined] only; [[v1, v2].map(pad)] pads [v1] first. *)
Definition gt (v1 v2 : jsval) (len : nat) : completion bool :=
  bind (as_version v1) (fun s1 =>
  bind (as_version v2) (fun s2 =>
  Return (gt_strings s1 s2 len))).

(** The default of the third parameter. *)
Definition default_len : nat := 3.

(** The comparison in the words of its description: scanning left to
    right, the first pair of components that differ has the left one
    strictly greater. Components differ and compare as JavaScript numbers
    do. *)
Definition first_difference_greater (a b : list number) : Prop :=
  exists i x y,
    nth_error a i = Some x /\ nth_error b i = Some y /\
    (forall j p q, (j < i)%nat ->
        nth_error a j = Some p -> nth_error b j = Some q ->
        num_strict_ne p q = false) /\
    num_strict_ne x y = true /\ num_gt x y = true.

(** The [i]-th component in the words of the data model: the number of
    the [i]-th segment, zero when the string has no such segment. *)
Definition component (v : jsstring) (i : nat) : number :=
  match nth_error (split dot v) i with
  | Some seg => Number seg
  | None => pzero
  end.

(** Versions as the data model has them: every segment that is compared
    is a run of decimal digits, denoting an integer that a double holds
    exactly; [values] is the tuple of those integers, zero where a segment
    is missing. *)
Definition plain_component (v : jsstring) (i : nat) : Prop :=
  match nth_error (split dot v) i with
  | Some seg => plain seg /\ plain_value seg < 2 ^ 53
  | None => True
  end.

Definition component_value (v : jsstring) (i : nat) : Z :=
  match nth_error (split dot v) i with
  | Some seg => plain_value seg
  | None => 0
  end.

Definition values (len : nat) (v : jsstring) : list Z :=
  List.map (component_value v) (seq 0 len).

(** The lexicographic order on tuples of integers, most significant
    component first. *)
Fixpoint lex_gt (a b : list Z) : bool :=
  match a, b with
  | x :: a', y :: b' => if x =? y then lex_gt a' b' else y <? x
  | _, _ => false
  end.

End Version.

(* ===================================================================== *)
(** * The retrying task runner: [loading] *)
(* ===================================================================== *)

Module Runner.

(** The model follows one JavaScript process. The progress indicator
    (ora) and the timer are collaborators that do what they are asked and
    do not throw; a callback settles, one way or the other, and does not
    itself call [loading]; [maxRetries] and [retryDelay] are integers. *)

(** What the runner does to the outside, in the order it does it. *)
Inductive event : Type :=
| SpinnerStart (text color : jsstring)   (* ora({text, color}).start() *)
| SpinnerSucceed (text : jsstring)       (* spinner.succeed(text)      *)
| SpinnerFail (text : jsstring)          (* spinner.fail(text)         *)
| Invoke (args : list jsval) (r : completion jsval)
                                         (* await cb(...args) settled  *)
| Sleep (ms : Z).                        (* setTimeout(resolve, ms)    *)

Definition is_invoke (e : event) : bool :=
  match e with Invoke _ _ => true | _ => false end.

Definition is_failure (e : event) : bool :=
  match e with Invoke _ (Throw _) => true | _ => false end.

Definition is_sleep (e : event) : bool :=
  match e with Sleep _ => true | _ => false end.

(** The number of times the callback was invoked along a trace. *)
Definition attempts (tr : list event) : nat :=
  List.length (filter is_invoke tr).

(** The number of invocations of the callback that failed. *)
Definition failed_attempts (tr : list event) : nat :=
  List.length (filter is_failure tr).

(** The number of retries (each one waits [retryDelay] first). *)
Definition retries (tr : list event) : nat :=
  List.length (filter is_sleep tr).

Section WithCallbackState.

(** The state a callback keeps for itself between invocations (a counter,
    a connection, the file system ...). [retryCount] is not part of it:
    the module does not export the variable. *)
Variable S : Type.

(** [cb(...args)], awaited: the way its promise settles (a synchronous
    throw rejects the same [try]) and the callback's new state. *)
Definition callback := list jsval -> S -> completion jsval * S.

(** [LoadingOptions], as [loading] destructures it: every property but
    [cb] has a default, used when the property is [undefined]. *)
Record LoadingOptions : Type := {
  text : option jsstring;
  cb : callback;
  okText : option jsstring;
  failureText : option jsstring;
  maxRetries : option Z;
  retryDelay : option Z;
  color : option jsstring
}.

Definition default {A} (d : A) (o : option A) : A :=
  match o with Some a => a | None => d end.

Definition text_of (o : LoadingOptions) := default (lit "loading...") (text o).
Definition okText_of (o : LoadingOptions) := default (lit "ok") (okText o).
Definition failureText_of (o : LoadingOptions) :=
  default (lit "failure") (failureText o).
Definition maxRetries_of (o : LoadingOptions) := default 2 (maxRetries o).
Definition retryDelay_of (o : LoadingOptions) := default 200 (retryDelay o).
Definition color_of (o : LoadingOptions) := default (lit "yellow") (color o).

(** The process: the module-level [let retryCount = 0], the callbacks'
    own state, and what has been done so far. *)
Record World : Type := {
  retryCount : Z;
  env : S;
  trace : list event
}.

(** The state of a process that has just loaded the module. *)
Definition fresh (s : S) : World :=
  {| retryCount := 0; env := s; trace := [] |}.

Definition emit (e : event) (w : World) : World :=
  {| retryCount := retryCount w; env := env w; trace := trace w ++ [e] |}.

(** [retryCount++] *)
Definition bump (w : World) : World :=
  {| retryCount := retryCount w + 1; env := env w; trace := trace w |}.

(** [await cb(...args)] *)
Definition call (f : callback) (args : list jsval) (w : World)
  : completion jsval * World :=
  let '(r, s') := f args (env w) in
  (r, {| retryCount := retryCount w; env := s';
         trace := trace w ++ [Invoke args r] |}).

(** The world in which the callback of one attempt has settled. *)
Definition attempt (o : LoadingOptions) (args : list jsval) (w : World)
  : completion jsval * World :=
  call (cb o) args (emit (SpinnerStart (text_of o) (color_of o)) w).

(** What the [catch] block does before it calls [loading] again. *)
Definition before_retry (o : LoadingOptions) (w : World) : World :=
  emit (Sleep (retryDelay_of o))
       (emit (SpinnerFail (lit "Failure, reTrying...")) (bump w)).

(** [async function loading(options, ...args)]. The recursion of the
    [catch] block is well founded: it is entered only when
    [retryCount <= maxRetries], after [retryCount++]. *)
Equations? loading (o : LoadingOptions) (args : list jsval) (w : World)
  : completion jsval * World
  by wf (Z.to_nat (maxRetries_of o + 1 - retryCount w)) lt :=
loading o args w with inspect (attempt o args w) := {
  | exist _ (Return result, w1) _ =>
      (Return result, emit (SpinnerSucceed (okText_of o)) w1)
  | exist _ (Throw e, w1) Hw with Z_le_gt_dec (retryCount w1) (maxRetries_of o) := {
    | left _ => loading o args (before_retry o w1)
    | right _ => (Return JUndefined, emit (SpinnerFail (failureText_of o)) w1)
    }
  }.
Proof.
  unfold attempt, call in Hw. simpl in Hw.
  destruct (cb o args (env w)) as [r s']. inversion Hw; subst.
  simpl in *. lia.
Qed.

(** What one run of [loading] adds to the trace. *)
Definition since (w w' : World) : list event :=
  skipn (List.length (trace w)) (trace w').

Definition run_events (o : LoadingOptions) (args : list jsval) (w : World)
  : list event :=
  since w (snd (loading o args w)).

(** The events of one attempt, according to how it ends. *)
Definition started (o : LoadingOptions) : event :=
  SpinnerStart (text_of o) (color_of o).

Definition succeeded (o : LoadingOptions) (args : list jsval) (v : jsval)
  : list event :=
  [started o; Invoke args (Return v); SpinnerSucceed (okText_of o)].

Definition retried (o : LoadingOptions) (args : list jsval) (e : exn)
  : list event :=
  [started o; Invoke args (Throw e);
   SpinnerFail (lit "Failure, reTrying..."); Sleep (retryDelay_of o)].

Definition gave_up (o : LoadingOptions) (args : list jsval) (e : exn)
  : list event :=
  [started o; Invoke args (Throw e); SpinnerFail (failureText_of o)].

(** The world [w] after more events, with a new counter and a new
    callback state. *)
Definition after (w : World) (rc : Z) (s : S) (evs : list event) : World :=
  {| retryCount := rc; env := s; trace := trace w ++ evs |}.

(** The retries still allowed by the shared counter. *)
Definition budget (o : LoadingOptions) (w : World) : nat :=
  Z.to_nat (maxRetries_of o + 1 - retryCount w).

(** A callback that fails on every invocation, whatever its state. *)
Definition always_fails (o : LoadingOptions) (args : list jsval) : Prop :=
  forall s, is_throw (fst (cb o args s)) = true.

(** ** Several invocations in flight

    [loading] suspends at its two [await]s only; between them it runs
    without interruption. An invocation is therefore either waiting for
    its callback to settle, waiting for its timer, or done, and a run of
    the process is the order in which those waits end. *)

Inductive phase : Type :=
| Pending                          (* at [await cb(...args)]        *)
| Sleeping                         (* at [await new Promise(...)]   *)
| Finished (r : completion jsval). (* the promise of [loading]      *)

Record task : Type := {
  t_options : LoadingOptions;
  t_args : list jsval;
  t_phase : phase;
  t_trace : list event
}.

(** The process with its invocations in flight; they share [retryCount]. *)
Record Pool : Type := {
  p_retryCount : Z;
  p_env : S;
  p_tasks : list task
}.

(** [loading(o, ...args)] up to its first [await]. *)
Definition spawn (o : LoadingOptions) (args : list jsval) : task :=
  {| t_options := o; t_args := args; t_phase := Pending;
     t_trace := [SpinnerStart (text_of o) (color_of o)] |}.

Definition set_task (i : nat) (t : task) (ts : list task) : list task :=
  firstn i ts ++ t :: skipn (Datatypes.S i) ts.

(** The wait of invocation [i] ends, and the invocation runs up to its
    next [await] or to its [return]. *)
Definition step (i : nat) (p : Pool) : Pool :=
  match nth_error (p_tasks p) i with
  | None => p
  | Some t =>
      let o := t_options t in
      let put ph evs :=
        set_task i {| t_options := o; t_args := t_args t; t_phase := ph;
                      t_trace := t_trace t ++ evs |} (p_tasks p) in
      match t_phase t with
      | Finished _ => p
      | Sleeping =>
          {| p_retryCount := p_retryCount p; p_env := p_env p;
             p_tasks := put Pending [SpinnerStart (text_of o) (color_of o)] |}
      | Pending =>
          let '(r, s') := cb o (t_args t) (p_env p) in
          match r with
          | Return result =>
              {| p_retryCount := p_retryCount p; p_env := s';
                 p_tasks := put (Finished (Return result))
                              [Invoke (t_args t) r;
                               SpinnerSucceed (okText_of o)] |}
          | Throw e =>
              if p_retryCount p <=? maxRetries_of o then
                {| p_retryCount := p_retryCount p + 1; p_env := s';
                   p_tasks := put Sleeping
                                [Invoke (t_args t) r;
                                 SpinnerFail (lit "Failure, reTrying...");
                                 Sleep (retryDelay_of o)] |}
              else
                {| p_retryCount := p_retryCount p; p_env := s';
                   p_tasks := put (Finished (Return JUndefined))
                                [Invoke (t_args t) r;
                                 SpinnerFail (failureText_of o)] |}
          end
      end
  end.

(** A schedule names, in order, the invocation whose wait ends next. *)
Definition run (sched : list nat) (p : Pool) : Pool :=
  fold_left (fun q i => step i q) sched p.

Definition is_finished (t : task) : bool :=
  match t_phase t with Finished _ => true | _ => false end.

Definition all_finished (p : Pool) : bool := forallb is_finished (p_tasks p).

(** How often invocation [i] has called its callback. *)
Definition attempts_of (i : nat) (p : Pool) : nat :=
  match nth_error (p_tasks p) i with
  | Some t => attempts (t_trace t)
  | None => O
  end.

(** One invocation alone in the process: waiting for its callback, with
    [pre] already done, and ended as [loading] says. *)
Definition solo_pending (o : LoadingOptions) (args : list jsval) (w : World)
                        (pre : list event) : Pool :=
  {| p_retryCount := retryCount w; p_env := env w;
     p_tasks := [{| t_options := o; t_args := args; t_phase := Pending;
                    t_trace := pre ++ [started o] |}] |}.

Definition solo_finished (o : LoadingOptions) (args : list jsval) (w : World)
                         (pre : list event) : Pool :=
  let r := loading o args w in
  {| p_retryCount := retryCount (snd r); p_env := env (snd r);
     p_tasks := [{| t_options := o; t_args := args;
                    t_phase := Finished (fst r);
                    t_trace := pre ++ run_events o args w |}] |}.

(** A pool of always-failing tasks that all carry [maxRetries = m]. *)
Definition uniform (m : Z) (t : task) : Prop :=
  maxRetries_of (t_options t) = m /\ always_fails (t_options t) (t_args t).

Definition total (f : task -> nat) (p : Pool) : nat :=
  list_sum (List.map f (p_tasks p)).

Definition attempts_made (t : task) : nat := attempts (t_trace t).
Definition done (t : task) : nat := if is_finished t then 1%nat else 0%nat.

(** What every run of such a pool keeps true: each failed attempt either
    raised the shared counter or ended its invocation, and invocations end
    only once the counter has passed [maxRetries]. *)
Definition accounted (m : Z) (p : Pool) : Prop :=
  Forall (uniform m) (p_tasks p) /\
  Z.of_nat (total attempts_made p) = p_retryCount p + Z.of_nat (total done p) /\
  0 <= p_retryCount p <= m + 1 /\
  ((0 < total done p)%nat -> p_retryCount p = m + 1).

End WithCallbackState.

Arguments attempts_made {S} t.
Arguments done {S} t.
Arguments uniform {S} m t.

End Runner.

(* ===================================================================== *)
(** * The registry lookup and the staleness check *)
(* ===================================================================== *)

Module Registry.

(** [NPM_URL] of utils/constants. *)
Definition NPM_URL : jsstring := lit "https://registry.npmjs.org/".

(** Console output: plain text and text passed through chalk. *)
Inductive piece : Type :=
| Plain (s : jsstring)
| Chalk (style : string) (v : jsval).

Inductive output : Type :=
| ConsoleWarn (msg : list piece)
| ConsoleLog (msg : list piece).

(** The own property [key] of an object, [undefined] when it has none. *)
Fixpoint own_property (key : jsstring) (props : list (jsstring * jsval)) : jsval :=
  match props with
  | [] => JUndefined
  | (k, v) :: rest =>
      if list_eq_dec N.eq_dec k key then v else own_property key rest
  end.

(** [v[key]] for a [key] that no built-in prototype defines and that is
    neither an index nor ["length"] (such as ["dist-tags"] and
    ["latest"]): the own property of an object, [undefined] on any other
    value but [undefined] and [null], on which the read throws. *)
Definition read (v : jsval) (key : jsstring) : completion jsval :=
  match v with
  | JUndefined => Throw (TypeError "Cannot read properties of undefined")
  | JNull => Throw (TypeError "Cannot read properties of null")
  | JObj props => Return (own_property key props)
  | _ => Return JUndefined
  end.

(** [axios.get(url)], awaited: the [data] of the response, or the
    rejection (no answer, or a status outside 2xx). *)
Definition network := jsstring -> completion jsval.

(** The warning of the [catch] block. *)
Definition warning (name : jsstring) : list output :=
  [ConsoleWarn
     [Chalk "yellow" (JStr (lit "Can not get latest version of " ++ name))]].

(** [async function getNpmLatestVersion(name)]: [version] is declared
    without a value, assigned inside the [try], and returned after it. *)
Definition getNpmLatestVersion (net : network) (name : jsstring)
  : completion jsval * list output :=
  let assigned :=
    bind (net (NPM_URL ++ name)) (fun data =>
    bind (read data (lit "dist-tags")) (fun tags =>
    read tags (lit "latest"))) in
  match assigned with
  | Return version => (Return version, [])
  | Throw err => (Return JUndefined, warning name)
  end.

(** The two lines [checkVersion] prints when an update is needed. *)
Definition advisory (latestVersion : jsval) (version : jsstring) : list output :=
  [ConsoleWarn
     [Plain (lit "Detected latest version of action-cli: ");
      Chalk "blackBright" latestVersion;
      Plain (lit ". Your current version is: ");
      Chalk "blackBright" (JStr version)];
   ConsoleLog
     [Plain (lit "To update, use ");
      Chalk "yellow" (JStr (lit "npm install action-cli@latest -g"));
      Plain (lit ", or alternatively, run ");
      Chalk "yellow" (JStr (lit "action update"))]].

(** [async function checkVersion(name, version)] *)
Definition checkVersion (net : network) (name version : jsstring)
  : completion jsval * list output :=
  let '(r, out) := getNpmLatestVersion net name in
  match r with
  | Throw e => (Throw e, out)
  | Return latestVersion =>
      match Version.gt latestVersion (JStr version) Version.default_len with
      | Throw e => (Throw e, out)
      | Return needUpdate =>
          if needUpdate
          then (Return JUndefined, out ++ advisory latestVersion version)
          else (Return JUndefined, out)
      end
  end.

(** An advisory line: [console.log] is used for nothing else, and the
    advisory's warning is the only one that starts with plain text. *)
Definition is_advisory_line (o : output) : bool :=
  match o with
  | ConsoleLog _ => true
  | ConsoleWarn (Plain _ :: _) => true
  | ConsoleWarn _ => false
  end.

Definition prints_advisory (out : list output) : bool :=
  existsb is_advisory_line out.

End Registry.

(* ===================================================================== *)
(** * Sample tasks, registries and versions *)
(* ===================================================================== *)

Module Samples.
Import Runner Registry.

(** A callback that rejects on every invocation. *)
Definition failing : callback unit :=
  fun _ s => (Throw (Thrown (JStr (lit "ECONNRESET"))), s).

Definition options {S} (f : callback S) (retries : option Z) : LoadingOptions S :=
  {| text := None; cb := f; okText := None; failureText := None;
     maxRetries := retries; retryDelay := None; color := None |}.

(** A callback that counts its invocations, rejects the first one and
    resolves every later one. *)
Definition flaky : callback nat :=
  fun _ n =>
    (match n with
     | O => Throw (Thrown (JStr (lit "ETIMEDOUT")))
     | _ => Return (JStr (lit "cloned"))
     end, Datatypes.S n).

(** Two unrelated always-failing callbacks; each counts its own
    invocations and does not touch the other's counter. *)
Definition failing_left : callback (nat * nat) :=
  fun _ s => (Throw (Thrown (JStr (lit "left"))), (Datatypes.S (fst s), snd s)).

Definition failing_right : callback (nat * nat) :=
  fun _ s => (Throw (Thrown (JStr (lit "right"))), (fst s, Datatypes.S (snd s))).

(** Both invocations in flight from a freshly loaded module. *)
Definition two_in_flight (m : Z) : Pool (nat * nat) :=
  {| p_retryCount := 0; p_env := (O, O);
     p_tasks := [spawn (options failing_left (Some m)) [];
                 spawn (options failing_right (Some m)) []] |}.

(** A registry that cannot be reached. *)
Definition offline : network :=
  fun _ => Throw (Thrown (JStr (lit "ENOTFOUND"))).

(** A registry that answers every request with the body [data]. *)
Definition answering (data : jsval) : network := fun _ => Return data.

(** The body [{"dist-tags": {"latest": v}}]. *)
Definition tagged (v : jsstring) : jsval :=
  JObj [(lit "dist-tags", JObj [(lit "latest", JStr v)])].

End Samples.

(* ===================================================================== *)
(** * The rest of the module: further notions for [loading] and [gt] *)
(* ===================================================================== *)

Module Order.

(** A double that is not [NaN], as a point of a lexicographic order:
    its class (infinite, finite or zero, by sign), then its exponent and
    its mantissa. *)
Definition position (x : number) : Z * Z * Z :=
  match x with
  | S754_zero _ => (0, 0, 0)
  | S754_infinity false => (2, 0, 0)
  | S754_infinity true => (-2, 0, 0)
  | S754_finite false m e => (1, e, Zpos m)
  | S754_finite true m e => (-1, - e, Zneg m)
  | S754_nan => (0, 0, 0)
  end.

Definition is_nan (x : number) : bool :=
  match x with S754_nan => true | _ => false end.

Definition before (a b : Z * Z * Z) : Prop :=
  let '(a1, a2, a3) := a in
  let '(b1, b2, b3) := b in
  a1 < b1 \/ (a1 = b1 /\ (a2 < b2 \/ (a2 = b2 /\ a3 < b3))).

(** What a value is, as far as [gt] cares. *)
Definition is_string (v : jsval) : bool :=
  match v with JStr _ => true | _ => false end.

Definition is_undefined (v : jsval) : bool :=
  match v with JUndefined => true | _ => false end.

End Order.

Module Attempts.
Import Runner.

Section WithCallbackState.

Variable S : Type.

(** The callback fails with the errors [es], one invocation after the
    other, taking its state from [s] to [s']. *)
Inductive fails_with (o : LoadingOptions S) (args : list jsval) : list exn -> S -> S -> Prop :=
| fails_nil s : fails_with o args [] s s
| fails_cons e es s s1 s2 :
    cb o args s = (Throw e, s1) ->
    fails_with o args es s1 s2 ->
    fails_with o args (e :: es) s s2.

(** The events of the failed and retried attempts of a run. *)
Definition retried_all (o : LoadingOptions S) (args : list jsval)
  (es : list exn) : list event :=
  List.concat (List.map (retried o args) es).

(** Invocations launched together in a freshly loaded module. *)
Definition launch (s : S) (specs : list (LoadingOptions S * list jsval)) : Pool S :=
  {| p_retryCount := 0; p_env := s;
     p_tasks := List.map (fun x => spawn (fst x) (snd x)) specs |}.

End WithCallbackState.

End Attempts.

(* ===================================================================== *)
(** * Branch and package manager: [getDefaultBranch], [isPackageManger] *)
(* ===================================================================== *)

Module Project.
Import Runner.

(** [s.startsWith(p)] *)
Fixpoint starts_with (p s : jsstring) : bool :=
  match p, s with
  | [], _ => true
  | a :: p', b :: s' => N.eqb a b && starts_with p' s'
  | _ :: _, [] => false
  end.

(** [s.includes(search)] for a string [search]: [search] occurs in [s] at
    some position, code unit by code unit. *)
Fixpoint includes (s search : jsstring) : bool :=
  starts_with search s ||
  match s with
  | [] => false
  | _ :: r => includes r search
  end.

(** [function getDefaultBranch(url, defBranch = "main")]; a missing or
    [undefined] second argument is [None]. *)
Definition getDefaultBranch (url : jsstring) (defBranch : option jsstring)
  : jsstring :=
  if includes url (lit "gitee.com") then lit "master"
  else default (lit "main") defBranch.

(** [PACKAGE_MANAGER] of utils/constants. *)
Definition PACKAGE_MANAGER : list jsstring :=
  [lit "npm"; lit "cnpm"; lit "pnpm"; lit "yarn"].

Definition string_eqb (a b : jsstring) : bool :=
  if list_eq_dec N.eq_dec a b then true else false.

(** [xs.includes(x)] on an array of strings and a string [x]. *)
Definition array_includes (xs : list jsstring) (x : jsstring) : bool :=
  existsb (string_eqb x) xs.

(** [function isPackageManger(name, pm = "pnpm")] *)
Definition isPackageManger (name : jsstring) (pm : option jsstring) : jsstring :=
  if array_includes PACKAGE_MANAGER name then name
  else default (lit "pnpm") pm.

End Project.

(* ===================================================================== *)
(** * The template registry on disk: [readTemplates] *)
(* ===================================================================== *)

Module Templates.

(** The file [templates.json] next to the module: missing, in place but
    failing every read with an error (a directory in its place, no
    permission ...), or holding a text. Writing a missing file succeeds. *)
Inductive Disk : Type :=
| Missing
| Unreadable (err : jsval)
| Holding (data : jsstring).

(** [fs.existsSync(templatesPath)] *)
Definition existsSync (d : Disk) : bool :=
  match d with Missing => false | _ => true end.

(** [fs.outputFileSync(templatesPath, data)] *)
Definition outputFileSync (data : jsstring) (d : Disk) : Disk := Holding data.

(** What [fs.readFile(templatesPath, "utf8", callback)] hands to its
    callback: [(err, undefined)] or [(null, data)]. *)
Inductive read_result : Type :=
| ReadError (err : jsval)
| ReadData (data : jsstring).

Definition ENOENT : jsval := JStr (lit "ENOENT: no such file or directory").

Definition readFile (d : Disk) : read_result :=
  match d with
  | Missing => ReadError ENOENT
  | Unreadable err => ReadError err
  | Holding data => ReadData data
  end.

(** The reasons [readTemplates] rejects with: a template string passed
    through chalk. [${path}] is the imported [path] module, not the path
    of the file. *)
Inductive part : Type :=
| Text (s : jsstring)
| PathModule
| ErrorValue (err : jsval).

Inductive reason : Type :=
| Styled (style : string) (parts : list part).

(** The line feed that the escape [\n] of the source strings stands
    for: the one code unit 10. *)
Definition line_feed : jsstring := [10%N].

(** [chalk.red(`Can not read ${path} \n ${err}`)] *)
Definition cannot_read (err : jsval) : reason :=
  Styled "red" [Text (lit "Can not read "); PathModule;
                Text (lit " " ++ line_feed ++ lit " ");
                ErrorValue err].

(** [chalk.redBright("Error: templates.json is required\n")] *)
Definition is_required : reason :=
  Styled "redBright"
         [Text (lit "Error: templates.json is required" ++ line_feed)].

(** A promise: it settles once, and later calls of [resolve] and [reject]
    do nothing. *)
Inductive promise : Type :=
| Pending
| Fulfilled (v : jsval)
| Rejected (r : reason).

Definition resolve (v : jsval) (p : promise) : promise :=
  match p with Pending => Fulfilled v | _ => p end.

Definition reject (r : reason) (p : promise) : promise :=
  match p with Pending => Rejected r | _ => p end.

Section WithJSON.

(** [JSON.parse] on a string: the value, or the [SyntaxError] it throws. *)
Variable parse : jsstring -> completion jsval.

(** [JSON.parse(data)] where [data] may be [undefined], which is parsed
    as the text ["undefined"]. *)
Definition parse_data (data : option jsstring) : completion jsval :=
  match data with
  | Some s => parse s
  | None => parse (lit "undefined")
  end.

(** [!data] *)
Definition falsy (data : option jsstring) : bool :=
  match data with
  | Some (_ :: _) => false
  | _ => true
  end.

(** The callback given to [fs.readFile]: the promise after it, and the
    exception that escapes it, if one does. Neither [reject] ends the
    callback. *)
Definition on_read (r : read_result) (p : promise) : promise * option exn :=
  let '(err, data) :=
    match r with
    | ReadError e => (Some e, None)
    | ReadData s => (None, Some s)
    end in
  let p1 := match err with Some e => reject (cannot_read e) p | None => p end in
  let p2 := if falsy data then reject is_required p1 else p1 in
  match parse_data data with
  | Return v => (resolve v p2, None)
  | Throw e => (p2, Some e)
  end.

(** [function readTemplates()]: the disk it leaves, the promise it
    returns once the read has ended, and the exception that escaped the
    read's callback. *)
Definition readTemplates (d : Disk) : Disk * promise * option exn :=
  let d1 := if existsSync d then d else outputFileSync (lit "{}") d in
  let '(p, escaped) := on_read (readFile d1) Pending in
  (d1, p, escaped).

End WithJSON.

(** [JSON.parse] cut down to the one text the module itself writes. *)
Definition parse_braces (s : jsstring) : completion jsval :=
  if list_eq_dec N.eq_dec s (lit "{}") then Return (JObj [])
  else Throw (Thrown (JStr (lit "SyntaxError"))).

End Templates.

(* ===================================================================== *)
(** * The URL pattern: [HTTP_URL_REGEX] *)
(* ===================================================================== *)

Module UrlPattern.

Unset Implicit Arguments.

(** Regular expressions without back-references or look-around, which is
    all [HTTP_URL_REGEX] uses. *)
Inductive regex : Type :=
| Empty                          (* matches nothing        *)
| Eps                            (* the empty match        *)
| Class (p : N -> bool)          (* one code unit of a set *)
| Seq (r1 r2 : regex)
| Alt (r1 r2 : regex)
| Star (r : regex).

(** [r?], [r+], [r{0,n}], [r{n}], [r{lo,hi}], and a literal text. *)
Definition opt (r : regex) : regex := Alt r Eps.
Definition plus (r : regex) : regex := Seq r (Star r).

Fixpoint upto (n : nat) (r : regex) : regex :=
  match n with
  | O => Eps
  | S k => opt (Seq r (upto k r))
  end.

Fixpoint exactly (n : nat) (r : regex) : regex :=
  match n with
  | O => Eps
  | S k => Seq r (exactly k r)
  end.

Definition between (lo hi : nat) (r : regex) : regex :=
  Seq (exactly lo r) (upto (hi - lo) r).

Fixpoint text (s : jsstring) : regex :=
  match s with
  | [] => Eps
  | c :: r => Seq (Class (N.eqb c)) (text r)
  end.

(** The texts a regular expression matches, from first to last unit. *)
Inductive matches : regex -> jsstring -> Prop :=
| MEps : matches Eps []
| MClass p c : p c = true -> matches (Class p) [c]
| MSeq r1 r2 s1 s2 :
    matches r1 s1 -> matches r2 s2 -> matches (Seq r1 r2) (s1 ++ s2)
| MAltL r1 r2 s : matches r1 s -> matches (Alt r1 r2) s
| MAltR r1 r2 s : matches r2 s -> matches (Alt r1 r2) s
| MStar0 r : matches (Star r) []
| MStarS r s1 s2 :
    matches r s1 -> matches (Star r) s2 -> matches (Star r) (s1 ++ s2).

(** Matching by derivatives. *)
Fixpoint nullable (r : regex) : bool :=
  match r with
  | Empty => false
  | Eps => true
  | Class _ => false
  | Seq r1 r2 => nullable r1 && nullable r2
  | Alt r1 r2 => nullable r1 || nullable r2
  | Star _ => true
  end.

Fixpoint deriv (c : N) (r : regex) : regex :=
  match r with
  | Empty => Empty
  | Eps => Empty
  | Class p => if p c then Eps else Empty
  | Seq r1 r2 =>
      if nullable r1 then Alt (Seq (deriv c r1) r2) (deriv c r2)
      else Seq (deriv c r1) r2
  | Alt r1 r2 => Alt (deriv c r1) (deriv c r2)
  | Star r1 => Seq (deriv c r1) (Star r1)
  end.

(** [/^r/.test(s)]: the pattern is anchored at the start of [s] and not at
    its end, so it holds when [r] matches some prefix of [s]. *)
Fixpoint test (r : regex) (s : jsstring) : bool :=
  nullable r ||
  match s with
  | [] => false
  | c :: s' => test (deriv c r) s'
  end.

(** The sets of the pattern: [[^!@#$%^&*?.\s]], the same without ["-"],
    and [[a-z]]. *)
Definition barred (c : N) : bool :=
  N.eqb c 33 || N.eqb c 64 || N.eqb c 35 || N.eqb c 36 || N.eqb c 37
  || N.eqb c 94 || N.eqb c 38 || N.eqb c 42 || N.eqb c 63 || N.eqb c 46
  || is_ws c.

Definition inner_ok (c : N) : bool := negb (barred c).
Definition first_ok (c : N) : bool := negb (barred c || N.eqb c 45).
Definition lower (c : N) : bool := ((97 <=? c) && (c <=? 122))%N.

(** [((ht|f)tps?):\/\/] *)
Definition scheme : regex :=
  Seq (Seq (Seq (Alt (text (lit "ht")) (text (lit "f"))) (text (lit "tp")))
           (opt (text (lit "s"))))
      (text (lit "://")).

(** [[^!@#$%^&*?.\s-]([^!@#$%^&*?.\s]{0,63}[^!@#$%^&*?.\s])?\.] *)
Definition label : regex :=
  Seq (Class first_ok)
      (Seq (opt (Seq (upto 63 (Class inner_ok)) (Class inner_ok)))
           (text (lit "."))).

(** [HTTP_URL_REGEX] of utils/constants:
    [/^(((ht|f)tps?):\/\/)?(label)+[a-z]{2,6}\/?/] *)
Definition HTTP_URL_REGEX : regex :=
  Seq (opt scheme)
      (Seq (plus label)
           (Seq (between 2 6 (Class lower)) (opt (text (lit "/"))))).

End UrlPattern.

(* ===================================================================== *)
(** * Properties of [loading] *)
(* ===================================================================== *)

Module RunnerFacts.
Import Runner.

Unset Implicit Arguments.

Lemma skipn_length_app {A} (l r : list A) : skipn (List.length l) (l ++ r) = r.
Proof. induction l as [|a l IH]; simpl; auto. Qed.

Lemma count_app {A} (f : A -> bool) (l r : list A) :
  List.length (filter f (l ++ r)) =
  (List.length (filter f l) + List.length (filter f r))%nat.
Proof. rewrite filter_app, length_app. reflexivity. Qed.

Section Facts.

Variable S : Type.
Implicit Types (o : LoadingOptions S) (w : World S) (args : list jsval).

(** [loading] unfolds into the body of the source function. *)
Lemma loading_eq o args w :
  loading o args w =
  match attempt o args w with
  | (Return result, w1) =>
      (Return result, emit (SpinnerSucceed (okText_of o)) w1)
  | (Throw e, w1) =>
      if retryCount w1 <=? maxRetries_of o
      then loading o args (before_retry o w1)
      else (Return JUndefined, emit (SpinnerFail (failureText_of o)) w1)
  end.
Proof.
  funelim (loading o args w).
  - rewrite e. reflexivity.
  - rewrite Hw. destruct (Z.leb_spec (retryCount w1) (maxRetries_of o)); [reflexivity | lia].
  - rewrite Hw. destruct (Z.leb_spec (retryCount w1) (maxRetries_of o)); [lia | reflexivity].
Qed.

Lemma loading_success {o args w v s'} :
  cb o args (env w) = (Return v, s') ->
  loading o args w = (Return v, after w (retryCount w) s' (succeeded o args v)).
Proof.
  intros H. rewrite loading_eq. unfold attempt, call. simpl. rewrite H.
  unfold emit, after, succeeded, started. simpl.
  repeat rewrite <- app_assoc. reflexivity.
Qed.

Lemma loading_retry {o args w e s'} :
  cb o args (env w) = (Throw e, s') ->
  retryCount w <= maxRetries_of o ->
  loading o args w =
  loading o args (after w (retryCount w + 1) s' (retried o args e)).
Proof.
  intros H Hle. rewrite loading_eq. unfold attempt, call. simpl. rewrite H.
  simpl. destruct (Z.leb_spec (retryCount w) (maxRetries_of o)); [|lia].
  unfold before_retry, emit, bump, after, retried, started. simpl.
  repeat rewrite <- app_assoc. reflexivity.
Qed.

Lemma loading_give_up {o args w e s'} :
  cb o args (env w) = (Throw e, s') ->
  maxRetries_of o < retryCount w ->
  loading o args w =
  (Return JUndefined, after w (retryCount w) s' (gave_up o args e)).
Proof.
  intros H Hlt. rewrite loading_eq. unfold attempt, call. simpl. rewrite H.
  simpl. destruct (Z.leb_spec (retryCount w) (maxRetries_of o)); [lia|].
  unfold emit, after, gave_up, started. simpl.
  repeat rewrite <- app_assoc. reflexivity.
Qed.

(** Induction along the recursion of [loading]: one case per way an
    attempt ends. *)
Lemma loading_ind_cases o args (P : World S -> Prop) :
  (forall w v s', cb o args (env w) = (Return v, s') -> P w) ->
  (forall w e s', cb o args (env w) = (Throw e, s') ->
                  maxRetries_of o < retryCount w -> P w) ->
  (forall w e s', cb o args (env w) = (Throw e, s') ->
                  retryCount w <= maxRetries_of o ->
                  P (after w (retryCount w + 1) s' (retried o args e)) ->
                  P w) ->
  forall w, P w.
Proof.
  intros Hs Hg Hr w.
  remember (budget o w) as n eqn:Hn. revert w Hn.
  induction n as [|n IH]; intros w Hn;
    destruct (cb o args (env w)) as [[v|e] s'] eqn:Hcb;
    try (eapply Hs; eassumption).
  - eapply Hg; [eassumption|]. unfold budget in Hn. lia.
  - destruct (Z_le_gt_dec (retryCount w) (maxRetries_of o)) as [Hle|Hgt].
    + eapply Hr; [eassumption | assumption |].
      apply IH. unfold budget in *. simpl. lia.
    + eapply Hg; [eassumption | lia].
Qed.

(** A run only adds to the trace. *)
Lemma loading_trace o args w :
  exists evs, trace (snd (loading o args w)) = trace w ++ evs.
Proof.
  revert w. apply (loading_ind_cases o args).
  - intros w v s' H. rewrite (loading_success H). simpl. eauto.
  - intros w e s' H Hlt. rewrite (loading_give_up H Hlt). simpl. eauto.
  - intros w e s' H Hle [evs IH]. rewrite (loading_retry H Hle), IH.
    simpl. rewrite <- app_assoc. eauto.
Qed.

Lemma trace_run_events o args w :
  trace (snd (loading o args w)) = trace w ++ run_events o args w.
Proof.
  destruct (loading_trace o args w) as [evs H].
  unfold run_events, since. rewrite H, skipn_length_app. reflexivity.
Qed.

Lemma run_events_success {o args w v s'} :
  cb o args (env w) = (Return v, s') ->
  run_events o args w = succeeded o args v.
Proof.
  intros H. unfold run_events, since. rewrite (loading_success H).
  simpl. apply skipn_length_app.
Qed.

Lemma run_events_give_up {o args w e s'} :
  cb o args (env w) = (Throw e, s') ->
  maxRetries_of o < retryCount w ->
  run_events o args w = gave_up o args e.
Proof.
  intros H Hlt. unfold run_events, since.
  rewrite (loading_give_up H Hlt). simpl. apply skipn_length_app.
Qed.

Lemma run_events_retry {o args w e s'} :
  cb o args (env w) = (Throw e, s') ->
  retryCount w <= maxRetries_of o ->
  run_events o args w =
  retried o args e ++
  run_events o args (after w (retryCount w + 1) s' (retried o args e)).
Proof.
  intros H Hle. unfold run_events at 1. unfold since.
  rewrite (loading_retry H Hle), trace_run_events. simpl.
  rewrite <- app_assoc. apply skipn_length_app.
Qed.

(** [loading] never rejects: whatever the callback does, the promise it
    returns is fulfilled. *)
Lemma loading_returns o args w : is_throw (fst (loading o args w)) = false.
Proof.
  revert w. apply (loading_ind_cases o args).
  - intros w v s' H. rewrite (loading_success H). reflexivity.
  - intros w e s' H Hlt. rewrite (loading_give_up H Hlt). reflexivity.
  - intros w e s' H Hle IH. rewrite (loading_retry H Hle). exact IH.
Qed.

(** [retryCount] never decreases, and a run never pushes it beyond
    [maxRetries + 1]. *)
Lemma retryCount_loading o args w :
  retryCount w <= retryCount (snd (loading o args w))
  <= Z.max (retryCount w) (maxRetries_of o + 1).
Proof.
  revert w. apply (loading_ind_cases o args).
  - intros w v s' H. rewrite (loading_success H). simpl. lia.
  - intros w e s' H Hlt. rewrite (loading_give_up H Hlt). simpl. lia.
  - intros w e s' H Hle IH. rewrite (loading_retry H Hle).
    simpl in IH. lia.
Qed.

(** Every retry is one increment of [retryCount], and conversely. *)
Lemma retries_run_events o args w :
  Z.of_nat (retries (run_events o args w)) =
  retryCount (snd (loading o args w)) - retryCount w.
Proof.
  revert w. apply (loading_ind_cases o args).
  - intros w v s' H. rewrite (run_events_success H).
    rewrite (loading_success H). simpl. lia.
  - intros w e s' H Hlt. rewrite (run_events_give_up H Hlt).
    rewrite (loading_give_up H Hlt). simpl. lia.
  - intros w e s' H Hle IH. rewrite (run_events_retry H Hle).
    rewrite (loading_retry H Hle).
    unfold retries in *. rewrite count_app. simpl in *. lia.
Qed.

(** A run makes one attempt more than it makes retries. *)
Lemma attempts_run_events o args w :
  attempts (run_events o args w) = Datatypes.S (retries (run_events o args w)).
Proof.
  revert w. apply (loading_ind_cases o args).
  - intros w v s' H. rewrite (run_events_success H). reflexivity.
  - intros w e s' H Hlt. rewrite (run_events_give_up H Hlt). reflexivity.
  - intros w e s' H Hle IH. rewrite (run_events_retry H Hle).
    unfold attempts, retries in *. rewrite !count_app, IH. simpl. lia.
Qed.

Lemma attempts_bound o args w :
  (attempts (run_events o args w) <= Datatypes.S (budget o w))%nat.
Proof.
  rewrite attempts_run_events.
  pose proof (retries_run_events o args w).
  pose proof (retryCount_loading o args w). unfold budget. lia.
Qed.

(** ** Callbacks that fail on every invocation *)

Lemma always_fails_inv {o args w v s'} :
  always_fails o args -> cb o args (env w) = (Return v, s') -> False.
Proof. intros Hf H. specialize (Hf (env w)). rewrite H in Hf. discriminate. Qed.

Lemma loading_always_fails o args :
  always_fails o args ->
  forall w,
    fst (loading o args w) = Return JUndefined /\
    retryCount (snd (loading o args w)) =
      Z.max (retryCount w) (maxRetries_of o + 1) /\
    failed_attempts (run_events o args w) = attempts (run_events o args w).
Proof.
  intros Hf. apply (loading_ind_cases o args).
  - intros w v s' H. destruct (always_fails_inv Hf H).
  - intros w e s' H Hlt. rewrite (run_events_give_up H Hlt).
    rewrite (loading_give_up H Hlt). simpl. repeat split; lia.
  - intros w e s' H Hle (IH1 & IH2 & IH3).
    rewrite (run_events_retry H Hle), (loading_retry H Hle).
    simpl in IH2. unfold failed_attempts, attempts in *.
    rewrite !count_app, IH3. simpl. repeat split; try assumption; lia.
Qed.

(** An always-failing task is attempted once, plus once for each unit of
    the shared counter that is left up to [maxRetries + 1]. *)
Lemma attempts_always_fails o args w :
  always_fails o args ->
  attempts (run_events o args w) = Datatypes.S (budget o w).
Proof.
  intros Hf. rewrite attempts_run_events.
  pose proof (retries_run_events o args w) as Hr.
  destruct (loading_always_fails o args Hf w) as (_ & Hrc & _).
  unfold budget. lia.
Qed.

(** ** The claims about one or two runs *)

(** The attempts of a run: those that failed and were retried, then the
    one that ended it. A run that ends on a failure has used every retry
    the counter allowed. *)
Lemma run_events_attempts o args w :
  exists es last,
    run_events o args w = Attempts.retried_all o args es ++ last /\
    ((exists v, last = succeeded o args v /\
                fst (loading o args w) = Return v /\
                (List.length es <= budget o w)%nat) \/
     (exists e, last = gave_up o args e /\
                fst (loading o args w) = Return JUndefined /\
                List.length es = budget o w)).
Proof.
  revert w. apply (loading_ind_cases o args).
  - intros w v s' H. exists [], (succeeded o args v).
    rewrite (run_events_success H), (loading_success H).
    split; [reflexivity|]. left. exists v. simpl. repeat split. lia.
  - intros w e s' H Hlt. exists [], (gave_up o args e).
    rewrite (run_events_give_up H Hlt), (loading_give_up H Hlt).
    split; [reflexivity|]. right. exists e. simpl. repeat split.
    unfold budget. lia.
  - intros w e s' H Hle (es & last & Hev & Hlast).
    assert (Hb : budget o w
                 = Datatypes.S (budget o (after w (retryCount w + 1) s'
                                                (retried o args e)))).
    { unfold budget. simpl. lia. }
    exists (e :: es), last.
    rewrite (run_events_retry H Hle), (loading_retry H Hle), Hev.
    split; [unfold Attempts.retried_all; simpl; reflexivity|].
    destruct Hlast as [(v & Hl & Hr & Hn)|(e' & Hl & Hr & Hn)].
    + left. exists v. repeat split; try assumption. simpl. lia.
    + right. exists e'. repeat split; try assumption. simpl. lia.
Qed.

(** C4. Whatever the options, the arguments, the callback and the state of
    the process, [loading] does not raise: its promise is fulfilled. It
    invokes the callback at least once; every failed invocation is followed
    by a retry as long as the guard [retryCount <= maxRetries] holds, and
    the failure on which the guard no longer holds is absorbed: [undefined]
    is returned, every retry the counter allowed having been made. A
    callback that fails on every invocation is therefore invoked exactly
    once plus once per retry the counter allows, and the value returned is
    [undefined]. *)
Theorem loading_absorbs_failure o args w :
  is_throw (fst (loading o args w)) = false /\
  (exists es last,
     run_events o args w = Attempts.retried_all o args es ++ last /\
     ((exists v, last = succeeded o args v /\
                 fst (loading o args w) = Return v /\
                 (List.length es <= budget o w)%nat) \/
      (exists e, last = gave_up o args e /\
                 fst (loading o args w) = Return JUndefined /\
                 List.length es = budget o w))) /\
  (always_fails o args ->
     fst (loading o args w) = Return JUndefined /\
     attempts (run_events o args w) = Datatypes.S (budget o w) /\
     retries (run_events o args w) = budget o w /\
     failed_attempts (run_events o args w) = attempts (run_events o args w)).
Proof.
  split; [apply loading_returns|].
  split; [apply run_events_attempts|].
  intros Hf.
  destruct (loading_always_fails o args Hf w) as (Hr & _ & Hfa).
  pose proof (attempts_always_fails o args w Hf) as Ha.
  pose proof (attempts_run_events o args w) as Hs.
  repeat split; try assumption. lia.
Qed.

(** C3. In a freshly loaded module, with [maxRetries >= 1], a callback
    that fails on its first invocation and succeeds on its second makes
    [loading] return the success value after exactly two invocations. *)
Theorem loading_fail_then_succeed o args s e s1 v s2 :
  1 <= maxRetries_of o ->
  cb o args s = (Throw e, s1) ->
  cb o args s1 = (Return v, s2) ->
  fst (loading o args (fresh s)) = Return v /\
  attempts (trace (snd (loading o args (fresh s)))) = 2%nat.
Proof.
  intros Hm H1 H2.
  assert (Hle : retryCount (fresh s) <= maxRetries_of o) by (simpl; lia).
  rewrite (@loading_retry o args (fresh s) e s1 H1 Hle).
  rewrite (@loading_success o args
             (after (fresh s) (retryCount (fresh s) + 1) s1 (retried o args e))
             v s2 H2).
  split; reflexivity.
Qed.

(** C2, as the code has it. In a freshly loaded module an always-failing
    callback under [maxRetries = 2] is invoked four times, not three: the
    guard [retryCount <= maxRetries] lets the third retry through. The
    runner then returns [undefined]. *)
Theorem loading_maxRetries_2_makes_4_attempts o args s :
  maxRetries_of o = 2 ->
  always_fails o args ->
  fst (loading o args (fresh s)) = Return JUndefined /\
  attempts (trace (snd (loading o args (fresh s)))) = 4%nat.
Proof.
  intros Hm Hf. split; [apply (loading_always_fails o args Hf)|].
  rewrite trace_run_events. simpl.
  rewrite (attempts_always_fails o args (fresh s) Hf).
  unfold budget. rewrite Hm. reflexivity.
Qed.

(** C1, as the code has it. Two always-failing tasks with [maxRetries = 1],
    run one after the other in a freshly loaded module: the first one is
    attempted three times and uses up the counter, the second one is
    attempted once and never retried. *)
Theorem sequential_runs_share_retryCount o1 args1 o2 args2 s :
  maxRetries_of o1 = 1 -> maxRetries_of o2 = 1 ->
  always_fails o1 args1 -> always_fails o2 args2 ->
  let w1 := snd (loading o1 args1 (fresh s)) in
  attempts (run_events o1 args1 (fresh s)) = 3%nat /\
  attempts (run_events o2 args2 w1) = 1%nat /\
  retries (run_events o2 args2 w1) = 0%nat.
Proof.
  intros Hm1 Hm2 Hf1 Hf2 w1.
  assert (Hrc : retryCount w1 = 2).
  { unfold w1. destruct (loading_always_fails o1 args1 Hf1 (fresh s)) as (_ & Hrc & _).
    rewrite Hrc, Hm1. reflexivity. }
  assert (H2 : attempts (run_events o2 args2 w1) = 1%nat).
  { rewrite (attempts_always_fails o2 args2 w1 Hf2).
    unfold budget. rewrite Hm2, Hrc. reflexivity. }
  split; [|split].
  - rewrite (attempts_always_fails o1 args1 (fresh s) Hf1).
    unfold budget. rewrite Hm1. reflexivity.
  - exact H2.
  - rewrite attempts_run_events in H2. lia.
Qed.

(** C10, amended. [retryCount] never decreases across a run, and once it
    has reached a value [k], every later invocation whose [maxRetries] is
    below [k] returns [undefined] after one failure of its callback: one
    attempt, no retry, the counter left as it was. *)
Theorem depleted_budget_no_retry o args w k e s' :
  retryCount w = k ->
  maxRetries_of o < k ->
  cb o args (env w) = (Throw e, s') ->
  loading o args w = (Return JUndefined, after w k s' (gave_up o args e)) /\
  attempts (run_events o args w) = 1%nat /\
  retries (run_events o args w) = 0%nat /\
  (forall o' args' w', retryCount w' <= retryCount (snd (loading o' args' w'))).
Proof.
  intros Hk Hlt H. subst k.
  split; [apply (loading_give_up H Hlt)|].
  rewrite (run_events_give_up H Hlt).
  split; [reflexivity|]. split; [reflexivity|].
  intros o' args' w'. apply retryCount_loading.
Qed.

End Facts.

Arguments loading_ind_cases {S} o args P.
Arguments loading_success {S o args w v s'}.
Arguments loading_retry {S o args w e s'}.
Arguments loading_give_up {S o args w e s'}.
Arguments run_events_success {S o args w v s'}.
Arguments run_events_retry {S o args w e s'}.
Arguments run_events_give_up {S o args w e s'}.

(** ** Instances *)

Import Samples.

Lemma loading_absorbs_failure_witness :
  fst (loading (options failing None) [] (fresh tt)) = Return JUndefined /\
  attempts (run_events (options failing None) [] (fresh tt))
    = Datatypes.S (budget (options failing None) (fresh tt)) /\
  retries (run_events (options failing None) [] (fresh tt))
    = budget (options failing None) (fresh tt) /\
  failed_attempts (run_events (options failing None) [] (fresh tt))
    = attempts (run_events (options failing None) [] (fresh tt)).
Proof.
  apply (proj2 (proj2 (loading_absorbs_failure unit (options failing None) [] (fresh tt)))).
  intros s. reflexivity.
Defined.

Lemma loading_fail_then_succeed_witness :
  fst (loading (options flaky (Some 1)) [] (fresh O)) = Return (JStr (lit "cloned")) /\
  attempts (trace (snd (loading (options flaky (Some 1)) [] (fresh O)))) = 2%nat.
Proof.
  apply (loading_fail_then_succeed nat (options flaky (Some 1)) [] O
           (Thrown (JStr (lit "ETIMEDOUT"))) 1%nat (JStr (lit "cloned")) 2%nat).
  - unfold maxRetries_of. simpl. lia.
  - reflexivity.
  - reflexivity.
Defined.

Lemma loading_maxRetries_2_witness :
  fst (loading (options failing (Some 2)) [] (fresh tt)) = Return JUndefined /\
  attempts (trace (snd (loading (options failing (Some 2)) [] (fresh tt)))) = 4%nat.
Proof.
  apply (loading_maxRetries_2_makes_4_attempts unit (options failing (Some 2)) [] tt).
  - reflexivity.
  - intros s. reflexivity.
Defined.

Lemma sequential_runs_witness :
  attempts (run_events (options failing_left (Some 1)) [] (fresh (O, O))) = 3%nat /\
  attempts (run_events (options failing_right (Some 1)) []
              (snd (loading (options failing_left (Some 1)) [] (fresh (O, O))))) = 1%nat /\
  retries (run_events (options failing_right (Some 1)) []
              (snd (loading (options failing_left (Some 1)) [] (fresh (O, O))))) = 0%nat.
Proof.
  apply (sequential_runs_share_retryCount (nat * nat)
           (options failing_left (Some 1)) [] (options failing_right (Some 1)) [] (O, O)).
  - reflexivity.
  - reflexivity.
  - intros s. reflexivity.
  - intros s. reflexivity.
Defined.

Lemma depleted_budget_witness :
  attempts (run_events (options failing (Some 1)) []
              {| retryCount := 2; env := tt; trace := [] |}) = 1%nat.
Proof.
  apply (depleted_budget_no_retry unit (options failing (Some 1)) []
           {| retryCount := 2; env := tt; trace := [] |} 2
           (Thrown (JStr (lit "ECONNRESET"))) tt).
  - reflexivity.
  - unfold maxRetries_of. simpl. lia.
  - reflexivity.
Defined.

(** C10 as stated fails when failed attempts are counted: a run with
    [maxRetries = 0] fails twice but raises [retryCount] to 1 only (the
    attempt that gives up is not counted), so a later invocation with
    [maxRetries = 1], which is below 2, still retries once. *)
Lemma terminal_failure_not_counted :
  let w1 := snd (loading (options failing (Some 0)) [] (fresh tt)) in
  failed_attempts (trace w1) = 2%nat /\
  retryCount w1 = 1 /\
  maxRetries_of (options failing (Some 1)) < 2 /\
  attempts (run_events (options failing (Some 1)) [] w1) = 2%nat /\
  retries (run_events (options failing (Some 1)) [] w1) = 1%nat.
Proof. vm_compute. repeat split; reflexivity. Qed.

End RunnerFacts.

(* ===================================================================== *)
(** * Invocations in flight at the same time *)
(* ===================================================================== *)

Module InterleavingFacts.
Import Runner RunnerFacts.

Unset Implicit Arguments.

Lemma set_task_app {S} (l1 l2 : list (task S)) t t' :
  set_task (List.length l1) t' (l1 ++ t :: l2) = l1 ++ t' :: l2.
Proof.
  unfold set_task. induction l1 as [|a l1 IH]; simpl; [reflexivity|].
  f_equal. exact IH.
Qed.

Lemma set_task_split {S} (ts : list (task S)) i t t' :
  nth_error ts i = Some t ->
  exists l1 l2, ts = l1 ++ t :: l2 /\ set_task i t' ts = l1 ++ t' :: l2.
Proof.
  intros H. destruct (nth_error_split ts i H) as (l1 & l2 & Hts & Hlen).
  exists l1, l2. split; [assumption|].
  subst ts i. apply set_task_app.
Qed.

Section Pools.

Variable S : Type.
Implicit Types (o : LoadingOptions S) (p : Pool S) (t : task S).

(** *** One invocation alone behaves as [loading] *)

Lemma solo_run_from o args w :
  forall pre, exists n,
    run (repeat O n) (solo_pending o args w pre) = solo_finished o args w pre.
Proof.
  revert w.
  apply (loading_ind_cases o args
           (fun w => forall pre, exists n,
                run (repeat O n) (solo_pending o args w pre)
                = solo_finished o args w pre)).
  - intros w v s' H pre. exists 1%nat.
    unfold solo_finished. rewrite (run_events_success H), (loading_success H).
    unfold solo_pending, run, step, set_task. simpl. rewrite H. simpl.
    rewrite <- app_assoc. reflexivity.
  - intros w e s' H Hlt pre. exists 1%nat.
    unfold solo_finished. rewrite (run_events_give_up H Hlt), (loading_give_up H Hlt).
    unfold solo_pending, run, step, set_task. simpl. rewrite H. simpl.
    destruct (Z.leb_spec (retryCount w) (maxRetries_of o)); [lia|].
    simpl. rewrite <- app_assoc. reflexivity.
  - intros w e s' H Hle IH pre.
    destruct (IH (pre ++ retried o args e)) as [n Hn].
    exists (Datatypes.S (Datatypes.S n)).
    unfold solo_finished. rewrite (run_events_retry H Hle), (loading_retry H Hle).
    unfold solo_finished in Hn. rewrite <- app_assoc in Hn. rewrite <- Hn.
    unfold solo_pending, run. simpl. f_equal.
    unfold step at 2. unfold set_task. simpl. rewrite H.
    destruct (Z.leb_spec (retryCount w) (maxRetries_of o)); [|lia].
    unfold step, set_task, retried. simpl.
    repeat rewrite <- app_assoc. reflexivity.
Qed.

(** An invocation that runs alone ends as [loading] says: same result,
    same events, same counter. *)
Lemma solo_run o args w :
  exists n,
    run (repeat O n)
        {| p_retryCount := retryCount w; p_env := env w;
           p_tasks := [spawn o args] |}
    = solo_finished o args w [].
Proof. exact (solo_run_from o args w []). Qed.

(** *** The pool keeps its invocations *)

Lemma step_length i p :
  List.length (p_tasks (step i p)) = List.length (p_tasks p).
Proof.
  unfold step. destruct (nth_error (p_tasks p) i) as [t|] eqn:Hi; [|reflexivity].
  assert (Hput : forall t', List.length (set_task i t' (p_tasks p))
                            = List.length (p_tasks p)).
  { intros t'. destruct (set_task_split (p_tasks p) i t t' Hi)
      as (l1 & l2 & Hts & Hset).
    rewrite Hset, Hts, !length_app. reflexivity. }
  destruct (t_phase t); simpl; try apply Hput; try reflexivity.
  destruct (cb (t_options t) (t_args t) (p_env p)) as [[v|e] s']; simpl;
    [apply Hput|].
  destruct (p_retryCount p <=? maxRetries_of (t_options t)); simpl; apply Hput.
Qed.

Lemma run_length sched :
  forall p, List.length (p_tasks (run sched p)) = List.length (p_tasks p).
Proof.
  unfold run. induction sched as [|i sched IH]; intros p; simpl; [reflexivity|].
  rewrite IH. apply step_length.
Qed.

(** *** Tasks that always fail, all with the same [maxRetries] *)

Section FailingPool.

Variable m : Z.
Hypothesis m_nonneg : 0 <= m.

Lemma uniform_replace l1 l2 t t' :
  Forall (uniform m) (l1 ++ t :: l2) ->
  t_options t' = t_options t -> t_args t' = t_args t ->
  Forall (uniform m) (l1 ++ t' :: l2).
Proof.
  intros H Ho Ha. apply Forall_app in H. destruct H as [H1 H2].
  inversion H2 as [|x l Hx Hl]; subst.
  apply Forall_app. split; [assumption|]. constructor; [|assumption].
  unfold uniform in *. rewrite Ho, Ha. assumption.
Qed.

Lemma accounted_replace rc s rc' s' l1 l2 t t' :
  accounted m {| p_retryCount := rc; p_env := s; p_tasks := l1 ++ t :: l2 |} ->
  t_options t' = t_options t -> t_args t' = t_args t ->
  Z.of_nat (attempts_made t') - Z.of_nat (attempts_made t)
    = (rc' - rc) + (Z.of_nat (done t') - Z.of_nat (done t)) ->
  rc <= rc' <= m + 1 ->
  (done t' = 1%nat -> rc' = m + 1) ->
  accounted m {| p_retryCount := rc'; p_env := s'; p_tasks := l1 ++ t' :: l2 |}.
Proof.
  intros (Hu & Hsum & Hrc & Hdone) Ho Ha Hbal Hrc' Hfin.
  unfold accounted, total in *. simpl in *.
  split; [eapply uniform_replace; eassumption|].
  rewrite !map_app, !list_sum_app in *. simpl in *.
  assert (done t' <= 1)%nat by (unfold done; destruct (is_finished t'); lia).
  repeat split; try lia.
Qed.

Lemma step_accounted i p : accounted m p -> accounted m (step i p).
Proof.
  destruct p as [rc s ts]. intros Hp.
  assert (Hrc : 0 <= rc <= m + 1) by apply Hp.
  unfold step. simpl.
  destruct (nth_error ts i) as [t|] eqn:Hi; [|exact Hp].
  assert (Ht : uniform m t).
  { destruct Hp as [Hu _]. simpl in Hu. rewrite Forall_forall in Hu.
    apply Hu. eapply nth_error_In; eassumption. }
  destruct Ht as [Hmax Hfail].
  assert (Hput : forall rc' s1 t',
    t_options t' = t_options t -> t_args t' = t_args t ->
    Z.of_nat (attempts_made t') - Z.of_nat (attempts_made t)
      = (rc' - rc) + (Z.of_nat (done t') - Z.of_nat (done t)) ->
    rc <= rc' <= m + 1 ->
    (done t' = 1%nat -> rc' = m + 1) ->
    accounted m {| p_retryCount := rc'; p_env := s1; p_tasks := set_task i t' ts |}).
  { intros rc' s1 t' Ho Ha Hbal Hrc' Hfin.
    destruct (set_task_split ts i t t' Hi) as (l1 & l2 & Hts & Hset).
    rewrite Hset. subst ts. eapply accounted_replace; eassumption. }
  destruct t as [o args ph tr]. simpl in *.
  destruct ph as [| |r]; simpl.
  - (* the callback settles *)
    specialize (Hfail s).
    destruct (cb o args s) as [[v|e] s'] eqn:Hcb; simpl in Hfail; [discriminate|].
    rewrite Hmax.
    destruct (Z.leb_spec rc m) as [Hle|Hgt]; apply Hput; try reflexivity;
      unfold attempts_made, done, is_finished, attempts; simpl;
      rewrite ?count_app; simpl; try lia; intros; lia.
  - (* the timer fires *)
    apply Hput; try reflexivity;
      unfold attempts_made, done, is_finished, attempts; simpl;
      rewrite ?count_app; simpl; try lia; intros; lia.
  - exact Hp.
Qed.

Lemma run_accounted sched : forall p, accounted m p -> accounted m (run sched p).
Proof.
  unfold run. induction sched as [|i sched IH]; intros p Hp; simpl; [assumption|].
  apply IH, step_accounted, Hp.
Qed.

Lemma total_done_all_finished p :
  all_finished p = true -> total done p = List.length (p_tasks p).
Proof.
  unfold all_finished, total. induction (p_tasks p) as [|t ts IH]; simpl; [reflexivity|].
  intros H. apply andb_prop in H. destruct H as [Ht Hts].
  unfold done at 1. rewrite Ht, (IH Hts). reflexivity.
Qed.

(** However the waits are ordered, once every invocation of the pool has
    ended the invocations have made [maxRetries + 1] attempts between
    them, plus one each. *)
Lemma attempts_of_finished_pool sched p :
  accounted m p -> p_tasks p <> [] -> all_finished (run sched p) = true ->
  Z.of_nat (total attempts_made (run sched p))
  = m + 1 + Z.of_nat (List.length (p_tasks p)).
Proof.
  intros Hp Hne Hfin. pose proof (run_length sched p) as Hlen.
  destruct (run_accounted sched p Hp) as (_ & Hsum & _ & Hdone).
  rewrite (total_done_all_finished _ Hfin) in *. rewrite Hlen in *.
  rewrite Hsum, Hdone; [reflexivity|].
  destruct (p_tasks p); [congruence | simpl; lia].
Qed.

End FailingPool.

End Pools.

Arguments attempts_of_finished_pool {S} m _ sched p.

(** *** Two failing tasks with [maxRetries = 1] *)

Import Samples.

Lemma two_in_flight_accounted : accounted 1 (two_in_flight 1).
Proof.
  unfold accounted, total, two_in_flight. simpl.
  split; [|split; [reflexivity | split; [lia | intros H; inversion H]]].
  repeat (constructor; [split; [reflexivity | intros s; reflexivity]|]).
  constructor.
Qed.

(** In whatever order the callbacks settle, the two invocations make four
    attempts between them; how the four are divided is decided by the
    order alone. *)
Lemma two_in_flight_four_attempts sched :
  all_finished (run sched (two_in_flight 1)) = true ->
  (attempts_of 0 (run sched (two_in_flight 1))
   + attempts_of 1 (run sched (two_in_flight 1)) = 4)%nat.
Proof.
  intros Hfin.
  pose proof (attempts_of_finished_pool 1 ltac:(lia) sched (two_in_flight 1)
                two_in_flight_accounted ltac:(discriminate) Hfin) as Htot.
  pose proof (run_length _ sched (two_in_flight 1)) as Hlen.
  unfold attempts_of. unfold total in Htot.
  destruct (p_tasks (run sched (two_in_flight 1))) as [|a [|b [|c l]]];
    simpl in Hlen; try discriminate.
  simpl in *. unfold attempts_made in Htot. lia.
Qed.

(** The callback of the first invocation always settles first: it is
    attempted three times, the second invocation once. *)
Lemma first_settles_first :
  let p := run [0; 0; 0; 0; 0; 1]%nat (two_in_flight 1) in
  all_finished p = true /\ attempts_of 0 p = 3%nat /\ attempts_of 1 p = 1%nat.
Proof. vm_compute. repeat split; reflexivity. Qed.

(** The callbacks settle in turn: two attempts each. *)
Lemma settle_in_turn :
  let p := run [0; 1; 0; 1; 0; 1]%nat (two_in_flight 1) in
  all_finished p = true /\ attempts_of 0 p = 2%nat /\ attempts_of 1 p = 2%nat.
Proof. vm_compute. repeat split; reflexivity. Qed.

End InterleavingFacts.

(* ===================================================================== *)
(** * Properties of [gt] *)
(* ===================================================================== *)

Module VersionFacts.
Import Version.

Unset Implicit Arguments.

(** ** Numbers *)

Lemma num_gt_irrefl x : num_gt x x = false.
Proof.
  unfold num_gt, SFltb.
  destruct x as [s|s| |s m e]; simpl; try reflexivity;
    try (destruct s; reflexivity).
  destruct s; rewrite Z.compare_refl, Pos.compare_cont_refl; reflexivity.
Qed.

Lemma num_strict_ne_nan_l y : num_strict_ne NaN y = true.
Proof. reflexivity. Qed.

Lemma num_strict_ne_nan_r x : num_strict_ne x NaN = true.
Proof. destruct x; reflexivity. Qed.

Lemma num_gt_nan_l y : num_gt NaN y = false.
Proof. destruct y; reflexivity. Qed.

Lemma num_gt_nan_r x : num_gt x NaN = false.
Proof. reflexivity. Qed.

(** ** Integers below [2^53] *)

Lemma digits2_pos_size p : digits2_pos p = Pos.size p.
Proof. induction p; simpl; congruence. Qed.

Lemma iter_xO_value p k : Zpos (Pos.iter xO p k) = Zpos p * 2 ^ Zpos k.
Proof.
  induction k using Pos.peano_ind.
  - simpl. lia.
  - rewrite Pos.iter_succ, Pos2Z.inj_succ, Z.pow_succ_r by lia.
    rewrite Pos2Z.inj_xO, IHk. lia.
Qed.

Lemma digits2_pos_iter_xO p k :
  Zpos (digits2_pos (Pos.iter xO p k)) = Zpos (digits2_pos p) + Zpos k.
Proof.
  induction k using Pos.peano_ind.
  - simpl. lia.
  - rewrite Pos.iter_succ. simpl digits2_pos. lia.
Qed.

(** [2^(d-1) <= p < 2^d] for [d] the number of binary digits of [p]. *)
Lemma digits2_pos_spec p :
  2 ^ (Zpos (digits2_pos p) - 1) <= Zpos p < 2 ^ Zpos (digits2_pos p).
Proof.
  rewrite digits2_pos_size.
  pose proof (Pos.size_le p) as Hle. pose proof (Pos.size_gt p) as Hgt.
  apply Pos2Z.pos_le_pos in Hle. apply Pos2Z.pos_lt_pos in Hgt.
  rewrite Pos2Z.inj_pow in Hle, Hgt.
  split; [|exact Hgt].
  assert (E : 2 ^ Zpos (Pos.size p) = 2 * 2 ^ (Zpos (Pos.size p) - 1)).
  { rewrite <- Z.pow_succ_r by lia. f_equal. lia. }
  lia.
Qed.

Lemma digits2_pos_le_53 p : Zpos p < 2 ^ 53 -> Zpos (digits2_pos p) <= 53.
Proof.
  intros H. destruct (digits2_pos_spec p) as [Hlo _].
  destruct (Z_le_gt_dec (Zpos (digits2_pos p)) 53) as [|Hgt]; [assumption|].
  exfalso.
  assert (2 ^ 53 <= 2 ^ (Zpos (digits2_pos p) - 1)) by (apply Z.pow_le_mono_r; lia).
  lia.
Qed.

Lemma of_Z_pos p :
  Zpos p < 2 ^ 53 ->
  of_Z (Zpos p) = S754_finite false (aligned p) (Zpos (digits2_pos p) - 53).
Proof.
  intros Hp. pose proof (digits2_pos_le_53 p Hp) as Hd.
  unfold of_Z, binary_normalize, binary_round, aligned.
  set (d := Zpos (digits2_pos p)) in *.
  assert (Hfexp : fexp prec emax (d + 0) = d - 53).
  { unfold fexp, emin, prec, emax. lia. }
  rewrite Hfexp. unfold shl_align.
  assert (Haux : forall mz ez,
     Zpos (digits2_pos mz) = 53 -> -52 <= ez <= 0 ->
     binary_round_aux prec emax false (Zpos mz) ez loc_Exact
     = S754_finite false mz ez).
  { intros mz ez Hmz Hez. unfold binary_round_aux, shr_fexp.
    change (Zdigits2 (Zpos mz)) with (Zpos (digits2_pos mz)). rewrite Hmz.
    assert (Hz : fexp prec emax (53 + ez) - ez = 0).
    { unfold fexp, emin, prec, emax. lia. }
    rewrite Hz.
    cbv [shr shr_record_of_loc loc_of_shr_record round_nearest_even shr_m].
    change (Zdigits2 (Zpos mz)) with (Zpos (digits2_pos mz)). rewrite Hmz, Hz.
    destruct (Z.leb_spec ez (emax - prec)) as [|Hbad]; [reflexivity|].
    unfold emax, prec in Hbad. lia. }
  destruct (Z.eq_dec d 53) as [E|E].
  - rewrite E. simpl. apply Haux; [exact E | lia].
  - assert (Hneg : exists k, d - 53 - 0 = Zneg k /\ 53 - d = Zpos k).
    { destruct (d - 53 - 0) as [|k|k] eqn:Hk; try lia.
      exists k. split; [reflexivity | lia]. }
    destruct Hneg as (k & Hk1 & Hk2). rewrite Hk1, Hk2.
    assert (0 < d) by (unfold d; lia).
    apply Haux; [|lia]. rewrite digits2_pos_iter_xO. fold d. lia.
Qed.

Lemma aligned_value p :
  Zpos p < 2 ^ 53 ->
  Zpos (aligned p) = Zpos p * 2 ^ (53 - Zpos (digits2_pos p)).
Proof.
  intros Hp. pose proof (digits2_pos_le_53 p Hp) as Hd. unfold aligned.
  destruct (53 - Zpos (digits2_pos p)) as [|k|k] eqn:Hk; try lia.
  apply iter_xO_value.
Qed.

Lemma SFcompare_finite m1 e1 m2 e2 :
  SFcompare (S754_finite false m1 e1) (S754_finite false m2 e2)
  = Some match e1 ?= e2 with
         | Lt => Lt
         | Gt => Gt
         | Eq => Pos.compare_cont Eq m1 m2
         end.
Proof. reflexivity. Qed.

Lemma SFcompare_of_Z_pos p q :
  Zpos p < 2 ^ 53 -> Zpos q < 2 ^ 53 ->
  SFcompare (of_Z (Zpos p)) (of_Z (Zpos q)) = Some (Zpos p ?= Zpos q).
Proof.
  intros Hp Hq. rewrite (of_Z_pos p Hp), (of_Z_pos q Hq).
  rewrite SFcompare_finite. f_equal.
  destruct (digits2_pos_spec p) as [Hplo Hphi].
  destruct (digits2_pos_spec q) as [Hqlo Hqhi].
  pose proof (digits2_pos_le_53 p Hp) as Hdp.
  pose proof (digits2_pos_le_53 q Hq) as Hdq.
  set (dp := Zpos (digits2_pos p)) in *. set (dq := Zpos (digits2_pos q)) in *.
  destruct (Z.compare_spec (dp - 53) (dq - 53)) as [He|He|He].
  - assert (Hd : dp = dq) by lia.
    change (Pos.compare_cont Eq (aligned p) (aligned q))
      with (Zpos (aligned p) ?= Zpos (aligned q)).
    rewrite (aligned_value p Hp), (aligned_value q Hq). fold dp dq. rewrite Hd.
    assert (0 < 2 ^ (53 - dq)) by (apply Z.pow_pos_nonneg; lia).
    destruct (Z.compare_spec (Zpos p) (Zpos q)) as [Hc|Hc|Hc];
      [apply Z.compare_eq_iff | apply Z.compare_lt_iff | apply Z.compare_gt_iff]; nia.
  - symmetry. apply Z.compare_lt_iff.
    assert (2 ^ dp <= 2 ^ (dq - 1)) by (apply Z.pow_le_mono_r; lia). lia.
  - symmetry. apply Z.compare_gt_iff.
    assert (2 ^ dq <= 2 ^ (dp - 1)) by (apply Z.pow_le_mono_r; lia). lia.
Qed.

Lemma SFcompare_of_Z a b :
  0 <= a < 2 ^ 53 -> 0 <= b < 2 ^ 53 ->
  SFcompare (of_Z a) (of_Z b) = Some (a ?= b).
Proof.
  intros Ha Hb. destruct a as [|p|p]; [| |lia]; destruct b as [|q|q]; try lia.
  - reflexivity.
  - rewrite (of_Z_pos q) by lia. reflexivity.
  - rewrite (of_Z_pos p) by lia. reflexivity.
  - apply SFcompare_of_Z_pos; lia.
Qed.

Lemma num_gt_of_Z a b :
  0 <= a < 2 ^ 53 -> 0 <= b < 2 ^ 53 -> num_gt (of_Z a) (of_Z b) = (b <? a).
Proof.
  intros Ha Hb. unfold num_gt, SFltb. rewrite (SFcompare_of_Z b a Hb Ha).
  unfold Z.ltb. destruct (b ?= a); reflexivity.
Qed.

Lemma num_strict_ne_of_Z a b :
  0 <= a < 2 ^ 53 -> 0 <= b < 2 ^ 53 ->
  num_strict_ne (of_Z a) (of_Z b) = negb (a =? b).
Proof.
  intros Ha Hb. unfold num_strict_ne, SFeqb. rewrite (SFcompare_of_Z a b Ha Hb).
  destruct (Z.compare_spec a b); destruct (Z.eqb_spec a b); try lia; reflexivity.
Qed.

(** ** Runs of decimal digits *)

Lemma digit_of_decimal c :
  is_decimal_digit c = true -> digit_of 10 c = Some (c - 48)%N.
Proof.
  unfold is_decimal_digit, digit_of. intros H. rewrite H.
  apply andb_prop in H. destruct H as [H1 H2].
  apply N.leb_le in H1, H2.
  destruct (N.ltb_spec (c - 48) 10); [reflexivity | lia].
Qed.

Lemma span_digits_plain s :
  Forall (fun c => is_decimal_digit c = true) s ->
  span_digits 10 s = (List.map (fun c => (c - 48)%N) s, []).
Proof.
  induction 1 as [|c s Hc Hs IH]; simpl; [reflexivity|].
  rewrite (digit_of_decimal c Hc), IH. reflexivity.
Qed.

Lemma digit_not_ws c : is_decimal_digit c = true -> is_ws c = false.
Proof.
  unfold is_decimal_digit, is_ws. intros H.
  apply andb_prop in H. destruct H as [H1 H2]. apply N.leb_le in H1, H2.
  repeat match goal with
         | |- context [?a <=? ?b] => destruct (Z.leb_spec a b); try lia
         | |- context [?a =? ?b] => destruct (Z.eqb_spec a b); try lia
         end; reflexivity.
Qed.

Lemma drop_ws_digits s :
  Forall (fun c => is_decimal_digit c = true) s -> drop_ws s = s.
Proof.
  intros H. destruct H as [|c s Hc Hs]; simpl; [reflexivity|].
  rewrite (digit_not_ws c Hc). reflexivity.
Qed.

Lemma trim_digits s :
  Forall (fun c => is_decimal_digit c = true) s -> trim s = s.
Proof.
  intros H. unfold trim. rewrite (drop_ws_digits s H).
  rewrite drop_ws_digits by (apply Forall_rev, H). apply rev_involutive.
Qed.

Lemma strip_sign_unsigned c r :
  c <> 43%N -> c <> 45%N -> strip_sign (c :: r) = (false, c :: r).
Proof.
  intros H1 H2. unfold strip_sign. destruct c as [|p]; [reflexivity|].
  do 6 (destruct p as [p|p|]; try reflexivity); congruence.
Qed.

Lemma non_decimal_literal_digits s :
  Forall (fun c => is_decimal_digit c = true) s -> non_decimal_literal s = None.
Proof.
  intros H. unfold non_decimal_literal.
  destruct H as [|z s Hz Hs]; [reflexivity|].
  destruct Hs as [|c s Hc Hs]; [reflexivity|].
  unfold is_decimal_digit in Hc. apply andb_prop in Hc. destruct Hc as [_ Hc].
  apply N.leb_le in Hc. unfold radix_of_prefix.
  destruct (N.eqb_spec c 120); [lia|]. destruct (N.eqb_spec c 88); [lia|].
  destruct (N.eqb_spec c 111); [lia|]. destruct (N.eqb_spec c 79); [lia|].
  destruct (N.eqb_spec c 98); [lia|]. destruct (N.eqb_spec c 66); [lia|].
  reflexivity.
Qed.

(** A run of decimal digits converts to the double nearest to the integer
    it denotes. *)
Lemma Number_plain s : plain s -> Number s = of_Z (plain_value s).
Proof.
  intros [Hne Hd]. unfold Number. rewrite (trim_digits s Hd).
  destruct s as [|c r] eqn:Hs; [congruence|]. rewrite <- Hs in *.
  rewrite (non_decimal_literal_digits s Hd).
  unfold decimal_literal.
  assert (Hc : is_decimal_digit c = true) by (subst s; inversion Hd; assumption).
  assert (Hsign : strip_sign s = (false, s)).
  { subst s. apply strip_sign_unsigned;
      unfold is_decimal_digit in Hc; apply andb_prop in Hc;
      destruct Hc as [Hc _]; apply N.leb_le in Hc; lia. }
  rewrite Hsign.
  destruct (list_eq_dec N.eq_dec s (lit "Infinity")) as [E|_].
  { exfalso. rewrite E in Hd. inversion Hd as [|x l Hx Hl]. discriminate Hx. }
  unfold unsigned_decimal. rewrite (span_digits_plain s Hd).
  rewrite app_nil_r.
  destruct (List.map (fun c0 => (c0 - 48)%N) s) as [|d ds] eqn:Hm.
  { subst s. discriminate Hm. }
  unfold plain_value. rewrite Hm. simpl List.length. 
  unfold round_decimal, of_Z, binary_normalize.
  destruct (digits_value 10 (d :: ds)) as [|p]; [reflexivity|].
  simpl Z.of_N. change (- Z.of_nat 0) with 0. simpl (0 <=? 0).
  cbv iota. rewrite Z.pow_0_r, Z.mul_1_r. reflexivity.
Qed.

(** ** Padding *)

Lemma split_nonempty sep s : split sep s <> [].
Proof.
  destruct s as [|c r]; simpl; [discriminate|].
  destruct (N.eqb c sep); [discriminate|].
  destruct (split sep r); discriminate.
Qed.

Lemma length_pad len v : List.length (pad len v) = len.
Proof.
  unfold pad. rewrite length_firstn, length_app, repeat_length. lia.
Qed.

Lemma nth_error_pad len v i :
  (i < len)%nat -> nth_error (pad len v) i = Some (component v i).
Proof.
  intros Hi. unfold pad, component.
  rewrite nth_error_firstn.
  destruct (Nat.ltb_spec i len) as [_|]; [|lia].
  destruct (nth_error (split dot v) i) as [seg|] eqn:Hseg.
  - rewrite nth_error_app1.
    + rewrite nth_error_map, Hseg. reflexivity.
    + rewrite length_map. apply nth_error_Some. congruence.
  - apply nth_error_None in Hseg.
    rewrite nth_error_app2 by (rewrite length_map; lia).
    rewrite nth_error_repeat; [reflexivity|]. rewrite length_map. lia.
Qed.

(** ** The loop *)

Lemma gt_loop_no_difference a b : forall todo i,
  (forall j, (i <= j < i + todo)%nat ->
             strict_ne (at_index a j) (at_index b j) = false) ->
  gt_loop a b i todo = false.
Proof.
  induction todo as [|todo IH]; intros i H; simpl; [reflexivity|].
  rewrite (H i) by lia. apply IH. intros j Hj. apply H. lia.
Qed.

Lemma gt_loop_first_difference a b k : forall todo i,
  (i <= k < i + todo)%nat ->
  (forall j, (i <= j < k)%nat ->
             strict_ne (at_index a j) (at_index b j) = false) ->
  strict_ne (at_index a k) (at_index b k) = true ->
  gt_loop a b i todo = greater (at_index a k) (at_index b k).
Proof.
  induction todo as [|todo IH]; intros i Hk Heq Hne; simpl; [lia|].
  destruct (Nat.eq_dec i k) as [->|Hik].
  - rewrite Hne. reflexivity.
  - rewrite (Heq i) by lia. apply IH; [lia | | assumption].
    intros j Hj. apply Heq. lia.
Qed.

Lemma gt_loop_true_inv a b : forall todo i,
  gt_loop a b i todo = true ->
  exists k, (i <= k < i + todo)%nat /\
    (forall j, (i <= j < k)%nat ->
               strict_ne (at_index a j) (at_index b j) = false) /\
    strict_ne (at_index a k) (at_index b k) = true /\
    greater (at_index a k) (at_index b k) = true.
Proof.
  induction todo as [|todo IH]; intros i H; simpl in H; [discriminate|].
  destruct (strict_ne (at_index a i) (at_index b i)) eqn:Hne.
  - exists i. split; [lia|]. split; [intros j Hj; lia|]. split; assumption.
  - destruct (IH (Datatypes.S i) H) as (k & Hk & Heq & Hnek & Hgt).
    exists k. split; [lia|]. split; [|split; assumption].
    intros j Hj. destruct (Nat.eq_dec j i) as [->|]; [assumption|].
    apply Heq. lia.
Qed.

(** A comparison that is never "greater" at any index is false. *)
Lemma gt_loop_never_greater a b : forall todo i,
  (forall j, greater (at_index a j) (at_index b j) = false) ->
  gt_loop a b i todo = false.
Proof.
  induction todo as [|todo IH]; intros i H; simpl; [reflexivity|].
  rewrite H. rewrite IH by assumption.
  destruct (strict_ne (at_index a i) (at_index b i)); reflexivity.
Qed.

(** The loop over two arrays of [len] numbers is the comparison by the
    first difference. *)
Lemma gt_loop_spec a b len :
  List.length a = len -> List.length b = len ->
  (gt_loop a b 0 len = true <-> first_difference_greater a b).
Proof.
  intros Ha Hb. split.
  - intros H. destruct (gt_loop_true_inv a b len 0%nat H) as (k & Hk & Heq & Hne & Hgt).
    unfold at_index in *.
    destruct (nth_error a k) as [x|] eqn:Hx; [|discriminate].
    destruct (nth_error b k) as [y|] eqn:Hy; [|discriminate].
    exists k, x, y. repeat split; try assumption.
    intros j p q Hj Hp Hq. specialize (Heq j ltac:(lia)).
    rewrite Hp, Hq in Heq. exact Heq.
  - intros (k & x & y & Hx & Hy & Heq & Hne & Hgt).
    assert (Hk : (k < len)%nat).
    { rewrite <- Ha. apply nth_error_Some. congruence. }
    rewrite (gt_loop_first_difference a b k len 0%nat); unfold at_index.
    + rewrite Hx, Hy. exact Hgt.
    + lia.
    + intros j Hj.
      destruct (nth_error a j) as [p|] eqn:Hp;
        [|apply nth_error_None in Hp; lia].
      destruct (nth_error b j) as [q|] eqn:Hq;
        [|apply nth_error_None in Hq; lia].
      simpl. eapply Heq; [|eassumption|eassumption]. lia.
    + rewrite Hx, Hy. exact Hne.
Qed.

(** ** Plain versions *)

Lemma plain_value_nonneg s : 0 <= plain_value s.
Proof. unfold plain_value. lia. Qed.

Lemma component_plain v i :
  plain_component v i ->
  component v i = of_Z (component_value v i) /\
  0 <= component_value v i < 2 ^ 53.
Proof.
  unfold plain_component, component, component_value.
  destruct (nth_error (split dot v) i) as [seg|].
  - intros [Hp Hlt]. split; [apply Number_plain, Hp|].
    split; [apply plain_value_nonneg | exact Hlt].
  - intros _. split; [reflexivity | lia].
Qed.

Lemma gt_loop_plain v1 v2 len : forall todo i,
  (i + todo = len)%nat ->
  (forall j, (j < len)%nat -> plain_component v1 j /\ plain_component v2 j) ->
  gt_loop (pad len v1) (pad len v2) i todo
  = lex_gt (List.map (component_value v1) (seq i todo))
           (List.map (component_value v2) (seq i todo)).
Proof.
  induction todo as [|todo IH]; intros i Hi Hp; simpl; [reflexivity|].
  unfold at_index. rewrite !nth_error_pad by lia.
  destruct (Hp i ltac:(lia)) as [H1 H2].
  destruct (component_plain v1 i H1) as [-> Hr1].
  destruct (component_plain v2 i H2) as [-> Hr2].
  simpl. rewrite num_strict_ne_of_Z, num_gt_of_Z by assumption.
  rewrite IH by (try lia; assumption).
  destruct (component_value v1 i =? component_value v2 i); reflexivity.
Qed.

(** Versions made of plain integers compare as the tuples of those
    integers do. *)
Lemma gt_strings_plain v1 v2 len :
  (forall j, (j < len)%nat -> plain_component v1 j /\ plain_component v2 j) ->
  gt_strings v1 v2 len = lex_gt (values len v1) (values len v2).
Proof.
  intros Hp. unfold gt_strings, values. apply gt_loop_plain; [lia | exact Hp].
Qed.

(** C7. [gt] pads each string to exactly [len] components, the number of
    each of its first [len] segments and zero where a segment is missing,
    and answers true exactly when the first differing pair of components
    has the left one greater, components being compared as numbers; on
    versions whose segments are plain integers this is the lexicographic
    order of the integer tuples, most significant first. So "2.0.0" is
    greater than "1.9.9", "1.2" is not greater than "1.2.0", and "10.0.0"
    is greater than "9.0.0". *)
Theorem gt_compares_padded_tuples v1 v2 len :
  List.length (pad len v1) = len /\
  (forall i, (i < len)%nat -> nth_error (pad len v1) i = Some (component v1 i)) /\
  (exists r, gt (JStr v1) (JStr v2) len = Return r /\
             (r = true <-> first_difference_greater (pad len v1) (pad len v2))) /\
  ((forall j, (j < len)%nat -> plain_component v1 j /\ plain_component v2 j) ->
   gt (JStr v1) (JStr v2) len = Return (lex_gt (values len v1) (values len v2))) /\
  gt (JStr (lit "2.0.0")) (JStr (lit "1.9.9")) default_len = Return true /\
  gt (JStr (lit "1.2")) (JStr (lit "1.2.0")) default_len = Return false /\
  gt (JStr (lit "10.0.0")) (JStr (lit "9.0.0")) default_len = Return true.
Proof.
  split; [apply length_pad|].
  split; [intros i Hi; apply nth_error_pad; exact Hi|].
  split; [|split].
  - exists (gt_strings v1 v2 len). split; [reflexivity|].
    unfold gt_strings. apply gt_loop_spec; apply length_pad.
  - intros Hp. unfold gt. simpl. f_equal. apply gt_strings_plain, Hp.
  - repeat split; vm_compute; reflexivity.
Qed.

Lemma gt_compares_padded_tuples_witness :
  gt (JStr (lit "1.10.0")) (JStr (lit "1.9.3")) 3
  = Return (lex_gt [1; 10; 0] [1; 9; 3]).
Proof.
  apply (proj1 (proj2 (proj2 (proj2
           (gt_compares_padded_tuples (lit "1.10.0") (lit "1.9.3") 3))))).
  intros j Hj. destruct j as [|[|[|j]]]; [| | |lia];
    (split; (split; [split; [discriminate | repeat constructor] | reflexivity])).
Defined.

(** C8. A version string is never greater than itself, whatever it
    contains and whatever the number of components compared. *)
Theorem gt_irreflexive (v : jsstring) (len : nat) :
  gt (JStr v) (JStr v) len = Return false.
Proof.
  unfold gt, gt_strings. simpl. f_equal.
  apply gt_loop_never_greater. intros j.
  destruct (at_index (pad len v) j) as [x|]; simpl; [apply num_gt_irrefl | reflexivity].
Qed.

(** C9, amended. A segment that is not a numeric literal becomes [NaN] and
    stays [NaN]: when the components before position [i] do not differ
    and one of the two [i]-th segments converts to [NaN], [gt] is false. *)
Theorem gt_nan_component_false v1 v2 len i :
  (i < len)%nat ->
  (forall j p q, (j < i)%nat ->
      nth_error (pad len v1) j = Some p -> nth_error (pad len v2) j = Some q ->
      num_strict_ne p q = false) ->
  component v1 i = NaN \/ component v2 i = NaN ->
  gt (JStr v1) (JStr v2) len = Return false.
Proof.
  intros Hi Heq Hnan. unfold gt, gt_strings. simpl. f_equal.
  rewrite (gt_loop_first_difference (pad len v1) (pad len v2) i len 0%nat);
    unfold at_index.
  - rewrite !nth_error_pad by assumption. simpl.
    destruct Hnan as [H|H]; rewrite H;
      [apply num_gt_nan_l | apply num_gt_nan_r].
  - lia.
  - intros j Hj.
    rewrite !nth_error_pad by lia. simpl.
    apply (Heq j); [lia | apply nth_error_pad; lia | apply nth_error_pad; lia].
  - rewrite !nth_error_pad by assumption. simpl.
    destruct Hnan as [H|H]; rewrite H;
      [apply num_strict_ne_nan_l | apply num_strict_ne_nan_r].
Qed.

Lemma gt_nan_component_false_witness :
  gt (JStr (lit "2.0.0")) (JStr (lit "x.0.0")) 3 = Return false.
Proof.
  apply (gt_nan_component_false (lit "2.0.0") (lit "x.0.0") 3 0).
  - lia.
  - intros j p q Hj. lia.
  - right. reflexivity.
Defined.

(** C9 as stated fails on its own example: the malformed segment of
    "x.0.0" is not taken for 0. *)
Lemma malformed_segment_is_not_zero :
  gt (JStr (lit "2.0.0")) (JStr (lit "x.0.0")) default_len = Return false /\
  gt (JStr (lit "2.0.0")) (JStr (lit "0.0.0")) default_len = Return true /\
  gt (JStr (lit "2.0.0")) (JStr (lit "x.0.0")) default_len
    <> gt (JStr (lit "2.0.0")) (JStr (lit "0.0.0")) default_len.
Proof. vm_compute. repeat split; try reflexivity. discriminate. Qed.

End VersionFacts.

(* ===================================================================== *)
(** * Properties of the registry lookup and of the staleness check *)
(* ===================================================================== *)

Module RegistryFacts.
Import Version VersionFacts Registry.

Unset Implicit Arguments.

(** ** Numbers that are not below zero *)

Lemma binary_round_aux_not_below_zero mx ex lx :
  not_below_zero (binary_round_aux prec emax false mx ex lx).
Proof.
  unfold not_below_zero, binary_round_aux.
  destruct (shr_fexp prec emax mx ex lx) as [mrs' e'].
  destruct (shr_fexp prec emax _ e' loc_Exact) as [mrs'' e''].
  destruct (shr_m mrs''); [reflexivity | | reflexivity].
  destruct (e'' <=? emax - prec); reflexivity.
Qed.

Lemma binary_round_not_below_zero mx ex :
  not_below_zero (binary_round prec emax false mx ex).
Proof.
  unfold binary_round.
  destruct (shl_align mx ex _) as [mz ez].
  apply binary_round_aux_not_below_zero.
Qed.

Lemma of_Z_not_below_zero (n : N) : not_below_zero (of_Z (Z.of_N n)).
Proof.
  unfold of_Z, binary_normalize. destruct n as [|p]; simpl; [reflexivity|].
  apply binary_round_not_below_zero.
Qed.

Lemma round_decimal_not_below_zero m e : not_below_zero (round_decimal false m e).
Proof.
  unfold round_decimal. destruct m as [|p]; [reflexivity|].
  destruct (0 <=? e); [apply binary_round_not_below_zero|].
  destruct (SFdiv_core_binary prec emax (Z.pos p) 0 (10 ^ (- e)) 0) as [[mz ez] lz].
  apply binary_round_aux_not_below_zero.
Qed.

Lemma strip_sign_no_minus t : ~ In minus t -> fst (strip_sign t) = false.
Proof.
  intros Hno. destruct t as [|c r]; [reflexivity|].
  destruct (N.eq_dec c 45) as [->|Hc]; [exfalso; apply Hno; left; reflexivity|].
  unfold strip_sign. destruct c as [|p]; [reflexivity|].
  do 6 (destruct p as [p|p|]; try reflexivity). congruence.
Qed.

Lemma decimal_literal_not_below_zero t :
  ~ In minus t -> not_below_zero (decimal_literal t).
Proof.
  intros Hno. unfold decimal_literal.
  pose proof (strip_sign_no_minus t Hno) as Hsign.
  destruct (strip_sign t) as [neg body]. simpl in Hsign. subst neg.
  destruct (list_eq_dec N.eq_dec body (lit "Infinity")); [reflexivity|].
  destruct (unsigned_decimal body) as [[m e]|]; [|reflexivity].
  apply round_decimal_not_below_zero.
Qed.

Lemma non_decimal_literal_not_below_zero t x :
  non_decimal_literal t = Some x -> not_below_zero x.
Proof.
  unfold non_decimal_literal. intros H.
  destruct t as [|z [|c r]]; try discriminate.
  destruct (radix_of_prefix c) as [radix|]; [|discriminate].
  destruct (N.eqb z 48); [|discriminate].
  destruct (span_digits radix r) as [[|d ds] [|c' rest]];
    inversion H; subst; try reflexivity.
  apply of_Z_not_below_zero.
Qed.

Lemma In_drop_ws c s : In c (drop_ws s) -> In c s.
Proof.
  induction s as [|a s IH]; simpl; [tauto|].
  destruct (is_ws a); [intros H; right; apply IH, H | intros H; exact H].
Qed.

Lemma In_trim c s : In c (trim s) -> In c s.
Proof.
  unfold trim. intros H. apply in_rev in H. apply In_drop_ws in H.
  apply in_rev in H. apply In_drop_ws in H. exact H.
Qed.

(** A string without a minus sign does not convert to a number below
    zero. *)
Lemma Number_not_below_zero s : ~ In minus s -> not_below_zero (Number s).
Proof.
  intros Hno. unfold Number.
  destruct (trim s) as [|c t] eqn:Ht; [reflexivity|].
  destruct (non_decimal_literal (c :: t)) as [x|] eqn:Hx.
  - eapply non_decimal_literal_not_below_zero; eassumption.
  - apply decimal_literal_not_below_zero.
    intros Hin. apply Hno, In_trim. rewrite Ht. exact Hin.
Qed.

Lemma In_split c sep v seg :
  In seg (split sep v) -> In c seg -> In c v.
Proof.
  revert seg. induction v as [|a v IH]; simpl; intros seg Hseg Hc.
  - destruct Hseg as [<-|[]]. exact Hc.
  - destruct (N.eqb a sep).
    + destruct Hseg as [<-|Hseg]; [destruct Hc|]. right. eapply IH; eassumption.
    + destruct (split sep v) as [|x xs] eqn:Hs.
      * destruct Hseg as [<-|[]]. destruct Hc as [->|[]]. left. reflexivity.
      * destruct Hseg as [<-|Hseg].
        -- destruct Hc as [->|Hc]; [left; reflexivity|].
           right. apply (IH x); [left; reflexivity | exact Hc].
        -- right. apply (IH seg); [right; exact Hseg | exact Hc].
Qed.

Lemma component_not_below_zero v i :
  ~ In minus v -> not_below_zero (component v i).
Proof.
  intros Hno. unfold component.
  destruct (nth_error (split dot v) i) as [seg|] eqn:Hseg; [|reflexivity].
  apply Number_not_below_zero. intros Hin. apply Hno.
  eapply In_split; [eapply nth_error_In; eassumption | exact Hin].
Qed.

(** The default ["0.0.0"] is not greater than a version without a minus
    sign. *)
Lemma default_not_greater version :
  ~ In minus version ->
  gt JUndefined (JStr version) default_len = Return false.
Proof.
  intros Hno.
  change (gt JUndefined (JStr version) default_len)
    with (Return (gt_strings (lit "0.0.0") version default_len)).
  f_equal. unfold gt_strings.
  apply gt_loop_never_greater. intros j.
  destruct (Nat.lt_ge_cases j default_len) as [Hj|Hj].
  - unfold at_index. rewrite (nth_error_pad default_len version j Hj).
    pose proof (component_not_below_zero version j Hno) as Hc.
    unfold default_len in Hj.
    destruct j as [|[|[|j]]]; try lia; exact Hc.
  - unfold at_index.
    replace (nth_error (pad default_len (lit "0.0.0")) j) with (@None number);
      [reflexivity|].
    symmetry. apply nth_error_None. rewrite length_pad. exact Hj.
Qed.

(** ** The lookup *)

Lemma getNpmLatestVersion_caught net name :
  is_throw (bind (net (NPM_URL ++ name)) (fun data =>
            bind (read data (lit "dist-tags")) (fun tags =>
            read tags (lit "latest")))) = true ->
  getNpmLatestVersion net name = (Return JUndefined, warning name).
Proof.
  unfold getNpmLatestVersion. intros H.
  destruct (bind (net (NPM_URL ++ name)) _) as [v|e]; [discriminate|reflexivity].
Qed.

Lemma getNpmLatestVersion_returns net name :
  is_throw (fst (getNpmLatestVersion net name)) = false.
Proof.
  unfold getNpmLatestVersion.
  destruct (bind (net (NPM_URL ++ name)) _); reflexivity.
Qed.

Lemma getNpmLatestVersion_output net name :
  snd (getNpmLatestVersion net name) = [] \/
  snd (getNpmLatestVersion net name) = warning name.
Proof.
  unfold getNpmLatestVersion.
  destruct (bind (net (NPM_URL ++ name)) _); [left | right]; reflexivity.
Qed.

(** C5, amended. [getNpmLatestVersion] does not throw, whatever the package
    name and the registry's answer. When the request fails, or the body or
    its [dist-tags] member is [undefined] or [null], it logs the warning
    and returns [undefined]; when [dist-tags] is there without a [latest]
    member it returns [undefined] and logs nothing. *)
Theorem getNpmLatestVersion_absorbs_failure net name :
  is_throw (fst (getNpmLatestVersion net name)) = false /\
  (is_throw (net (NPM_URL ++ name)) = true ->
   getNpmLatestVersion net name = (Return JUndefined, warning name)) /\
  (forall data, net (NPM_URL ++ name) = Return data ->
     data = JUndefined \/ data = JNull \/
     read data (lit "dist-tags") = Return JUndefined \/
     read data (lit "dist-tags") = Return JNull ->
     getNpmLatestVersion net name = (Return JUndefined, warning name)) /\
  (forall data tags, net (NPM_URL ++ name) = Return data ->
     read data (lit "dist-tags") = Return tags ->
     read tags (lit "latest") = Return JUndefined ->
     getNpmLatestVersion net name = (Return JUndefined, [])).
Proof.
  split; [apply getNpmLatestVersion_returns|].
  split; [|split].
  - intros H. apply getNpmLatestVersion_caught.
    destruct (net (NPM_URL ++ name)); [discriminate | reflexivity].
  - intros data Hnet Hbad. apply getNpmLatestVersion_caught. rewrite Hnet. simpl.
    destruct Hbad as [->|[->|[->| ->]]]; reflexivity.
  - intros data tags Hnet Htags Hlatest.
    unfold getNpmLatestVersion. rewrite Hnet. simpl. rewrite Htags. simpl.
    rewrite Hlatest. reflexivity.
Qed.

(** ** The check *)

Lemma prints_advisory_lookup net name :
  prints_advisory (snd (getNpmLatestVersion net name)) = false.
Proof.
  destruct (getNpmLatestVersion_output net name) as [-> | ->]; reflexivity.
Qed.

Lemma prints_advisory_app out latest version :
  prints_advisory (out ++ advisory latest version) = true.
Proof.
  unfold prints_advisory. rewrite existsb_app. simpl. apply orb_true_r.
Qed.

(** [checkVersion] in terms of what the lookup returned. *)
Lemma checkVersion_eq net name version latest :
  fst (getNpmLatestVersion net name) = Return latest ->
  checkVersion net name version =
  match gt latest (JStr version) default_len with
  | Throw e => (Throw e, snd (getNpmLatestVersion net name))
  | Return true =>
      (Return JUndefined,
       snd (getNpmLatestVersion net name) ++ advisory latest version)
  | Return false => (Return JUndefined, snd (getNpmLatestVersion net name))
  end.
Proof.
  unfold checkVersion. destruct (getNpmLatestVersion net name) as [r out].
  simpl. intros ->. destruct (gt latest (JStr version) default_len) as [[|]|e];
    reflexivity.
Qed.

(** C6, amended. [checkVersion] prints no advisory when the lookup returns
    [undefined] and the current version has no minus sign in it, and none
    when [gt] finds the looked-up version not greater than the current
    one; when it prints the advisory, [gt] has found the looked-up version
    (["0.0.0"] in place of [undefined]) greater, and the advisory is the
    two lines after the lookup's own output. *)
Theorem checkVersion_advisory net name version :
  (fst (getNpmLatestVersion net name) = Return JUndefined ->
   ~ In minus version ->
   prints_advisory (snd (checkVersion net name version)) = false) /\
  (forall latest,
     fst (getNpmLatestVersion net name) = Return latest ->
     gt latest (JStr version) default_len = Return false ->
     prints_advisory (snd (checkVersion net name version)) = false) /\
  (prints_advisory (snd (checkVersion net name version)) = true ->
   exists latest,
     fst (getNpmLatestVersion net name) = Return latest /\
     gt latest (JStr version) default_len = Return true /\
     snd (checkVersion net name version)
     = snd (getNpmLatestVersion net name) ++ advisory latest version).
Proof.
  assert (Hfalse : forall latest,
     fst (getNpmLatestVersion net name) = Return latest ->
     gt latest (JStr version) default_len = Return false ->
     prints_advisory (snd (checkVersion net name version)) = false).
  { intros latest Hl Hgt. rewrite (checkVersion_eq net name version latest Hl), Hgt.
    simpl. apply prints_advisory_lookup. }
  split; [|split].
  - intros Hl Hno. apply (Hfalse JUndefined Hl). apply default_not_greater, Hno.
  - exact Hfalse.
  - intros Hp.
    pose proof (getNpmLatestVersion_returns net name) as Hr.
    destruct (fst (getNpmLatestVersion net name)) as [latest|e] eqn:Hl;
      [|discriminate].
    exists latest. split; [reflexivity|].
    rewrite (checkVersion_eq net name version latest Hl) in *.
    destruct (gt latest (JStr version) default_len) as [[|]|e]; simpl in *.
    + split; reflexivity.
    + rewrite prints_advisory_lookup in Hp. discriminate.
    + rewrite prints_advisory_lookup in Hp. discriminate.
Qed.

(** ** Instances *)

Import Samples.

Lemma getNpmLatestVersion_witness :
  getNpmLatestVersion offline (lit "action-cli")
  = (Return JUndefined, warning (lit "action-cli")).
Proof.
  apply (proj1 (proj2 (getNpmLatestVersion_absorbs_failure offline (lit "action-cli")))).
  reflexivity.
Defined.

(** C5 as stated fails when [dist-tags] has no [latest]: [undefined] is
    returned, but no warning is logged. *)
Lemma missing_latest_logs_nothing :
  getNpmLatestVersion (answering (JObj [(lit "dist-tags", JObj [])]))
                      (lit "action-cli")
  = (Return JUndefined, []).
Proof. reflexivity. Qed.

Lemma checkVersion_advisory_witness :
  prints_advisory (snd (checkVersion offline (lit "action-cli") (lit "1.0.3")))
  = false.
Proof.
  apply (proj1 (checkVersion_advisory offline (lit "action-cli") (lit "1.0.3"))).
  - reflexivity.
  - vm_compute. intuition discriminate.
Defined.

(** A registry that knows a newer release makes the check print the two
    lines; the same release as the current one does not. *)
Lemma advisory_for_newer_release :
  snd (checkVersion (answering (tagged (lit "1.2.0"))) (lit "action-cli")
                    (lit "1.1.9"))
  = advisory (JStr (lit "1.2.0")) (lit "1.1.9") /\
  snd (checkVersion (answering (tagged (lit "1.2.0"))) (lit "action-cli")
                    (lit "1.2.0"))
  = [].
Proof. split; vm_compute; reflexivity. Qed.

(** C6 as stated fails for a current version with a negative component:
    the lookup returns [undefined], [gt] compares the default ["0.0.0"]
    with ["-1.0.0"], and the advisory is printed. *)
Lemma advisory_without_latest_version :
  fst (getNpmLatestVersion offline (lit "action-cli")) = Return JUndefined /\
  prints_advisory (snd (checkVersion offline (lit "action-cli") (lit "-1.0.0")))
  = true.
Proof. split; reflexivity. Qed.

End RegistryFacts.

(* ===================================================================== *)
(** * More properties of [loading] *)
(* ===================================================================== *)

Module RunnerExtras.
Import Runner Attempts RunnerFacts InterleavingFacts.

Unset Implicit Arguments.

Section More.

Variable S : Type.
Implicit Types (o : LoadingOptions S) (w : World S) (args : list jsval).

Lemma attempts_retried_all o args es :
  attempts (retried_all o args es) = List.length es.
Proof.
  unfold retried_all, attempts. induction es as [|e es IH]; simpl; [reflexivity|].
  rewrite IH. reflexivity.
Qed.

Lemma retries_retried_all o args es :
  retries (retried_all o args es) = List.length es.
Proof.
  unfold retried_all, retries. induction es as [|e es IH]; simpl; [reflexivity|].
  rewrite IH. reflexivity.
Qed.

(** X1. Every run of [loading] is a row of failed attempts, each one
    followed by the retry message and one wait of [retryDelay]
    milliseconds, then one last attempt: a success, whose value is
    returned, or a failure on which the run gives up and returns
    [undefined], the counter then being above [maxRetries]. The number of
    retried attempts is the increase of [retryCount]. *)
Theorem run_events_shape o args w :
  exists es last,
    run_events o args w = retried_all o args es ++ last /\
    Z.of_nat (List.length es)
      = retryCount (snd (loading o args w)) - retryCount w /\
    ((exists v, last = succeeded o args v /\
                fst (loading o args w) = Return v) \/
     (exists e, last = gave_up o args e /\
                fst (loading o args w) = Return JUndefined /\
                maxRetries_of o < retryCount (snd (loading o args w)))).
Proof.
  revert w. apply (loading_ind_cases o args).
  - intros w v s' H. exists [], (succeeded o args v).
    rewrite (run_events_success H), (loading_success H). simpl.
    split; [reflexivity|]. split; [lia|]. left. eauto.
  - intros w e s' H Hlt. exists [], (gave_up o args e).
    rewrite (run_events_give_up H Hlt), (loading_give_up H Hlt). simpl.
    split; [reflexivity|]. split; [lia|]. right. eauto.
  - intros w e s' H Hle (es & last & Hev & Hlen & Hlast).
    exists (e :: es), last.
    rewrite (run_events_retry H Hle), (loading_retry H Hle), Hev.
    split; [unfold retried_all; simpl; reflexivity|].
    split; [simpl in *; lia|]. exact Hlast.
Qed.

(** X2. A run invokes the callback once more than it retries, raises
    [retryCount] by exactly the number of its retries, never beyond
    [maxRetries + 1] unless the counter was there already, and only adds
    to what the process has done before. *)
Theorem loading_accounts o args w :
  attempts (run_events o args w) = Datatypes.S (retries (run_events o args w)) /\
  Z.of_nat (retries (run_events o args w))
    = retryCount (snd (loading o args w)) - retryCount w /\
  retryCount w <= retryCount (snd (loading o args w))
    <= Z.max (retryCount w) (maxRetries_of o + 1) /\
  trace (snd (loading o args w)) = trace w ++ run_events o args w.
Proof.
  split; [apply attempts_run_events|].
  split; [apply retries_run_events|].
  split; [apply retryCount_loading | apply trace_run_events].
Qed.

(** X3. From any state of the counter, a callback that always fails is
    invoked once, plus once for each unit the counter is short of
    [maxRetries + 1]; every invocation fails, [undefined] is returned, and
    the counter ends at [maxRetries + 1] or where it was, whichever is
    greater. *)
Theorem always_failing_attempts o args w :
  always_fails o args ->
  fst (loading o args w) = Return JUndefined /\
  attempts (run_events o args w)
    = Datatypes.S (Z.to_nat (maxRetries_of o + 1 - retryCount w)) /\
  failed_attempts (run_events o args w) = attempts (run_events o args w) /\
  retryCount (snd (loading o args w))
    = Z.max (retryCount w) (maxRetries_of o + 1).
Proof.
  intros Hf. destruct (loading_always_fails S o args Hf w) as (Hr & Hrc & Hfa).
  split; [exact Hr|]. split; [apply (attempts_always_fails S o args w Hf)|].
  split; assumption.
Qed.

(** X4. When the callback fails a number of times in a row and then
    succeeds, and the counter leaves room for that many retries,
    [loading] returns the success value after exactly those attempts,
    and the counter has grown by the number of failures. *)
Theorem loading_succeeds_within_budget o args es : forall w sk v s',
  fails_with o args es (env w) sk ->
  cb o args sk = (Return v, s') ->
  (es <> [] -> retryCount w + Z.of_nat (List.length es) <= maxRetries_of o + 1) ->
  loading o args w
  = (Return v,
     after w (retryCount w + Z.of_nat (List.length es)) s'
           (retried_all o args es ++ succeeded o args v)).
Proof.
  induction es as [|e es IH]; intros w sk v s' Hf Hok Hb.
  - inversion Hf; subst. rewrite (loading_success Hok).
    unfold after. simpl. rewrite Z.add_0_r. reflexivity.
  - inversion Hf as [|e' es' s0 s1 s2 Hcb Hrest]; subst.
    specialize (Hb ltac:(discriminate)).
    assert (Hle : retryCount w <= maxRetries_of o) by (simpl in Hb; lia).
    rewrite (loading_retry Hcb Hle).
    rewrite (IH (after w (retryCount w + 1) s1 (retried o args e)) sk v s');
      [| exact Hrest | exact Hok | intros _; simpl in *; lia].
    unfold after, retried_all. simpl trace. simpl retryCount.
    f_equal. f_equal; [simpl List.length; lia|].
    simpl. rewrite <- !app_assoc. reflexivity.
Qed.

(** X5. When the callback fails on as many invocations in a row as the
    counter allows attempts, [loading] returns [undefined] and does not
    invoke the callback again, whatever a further invocation would have
    given. *)
Theorem loading_gives_up_after_budget o args es : forall w sk,
  fails_with o args es (env w) sk ->
  Z.of_nat (List.length es) = Z.max 0 (maxRetries_of o + 1 - retryCount w) + 1 ->
  fst (loading o args w) = Return JUndefined /\
  env (snd (loading o args w)) = sk /\
  attempts (run_events o args w) = List.length es.
Proof.
  induction es as [|e es IH]; intros w sk Hf Hlen; [simpl in Hlen; lia|].
  inversion Hf as [|e' es' s0 s1 s2 Hcb Hrest]; subst.
  destruct (Z_le_gt_dec (retryCount w) (maxRetries_of o)) as [Hle|Hgt].
  - rewrite (run_events_retry Hcb Hle), (loading_retry Hcb Hle).
    destruct (IH (after w (retryCount w + 1) s1 (retried o args e)) sk Hrest)
      as (Hr & He & Ha).
    { simpl in *. lia. }
    split; [exact Hr|]. split; [exact He|].
    unfold attempts in *. rewrite count_app, Ha. reflexivity.
  - assert (Hes : es = []).
    { destruct es; [reflexivity|]. simpl in Hlen. lia. }
    subst es. inversion Hrest; subst.
    rewrite (run_events_give_up Hcb ltac:(lia)), (loading_give_up Hcb ltac:(lia)).
    repeat split.
Qed.

Lemma total_launch (f : task S -> nat) (s : S)
  (specs : list (LoadingOptions S * list jsval)) :
  (forall x, f (spawn (fst x) (snd x)) = 0%nat) ->
  total f (launch s specs) = 0%nat.
Proof.
  intros Hf. unfold total, launch. simpl.
  induction specs as [|x xs IH]; simpl; [reflexivity|].
  rewrite Hf, IH. reflexivity.
Qed.

Lemma launch_accounted m (s : S)
  (specs : list (LoadingOptions S * list jsval)) :
  0 <= m ->
  Forall (fun x => maxRetries_of (fst x) = m /\ always_fails (fst x) (snd x)) specs ->
  accounted m (launch s specs).
Proof.
  intros Hm Hall. unfold accounted.
  rewrite !total_launch by (intros x; reflexivity).
  split; [|split; [reflexivity | split; [simpl; lia | intros H; inversion H]]].
  unfold launch. simpl.
  induction Hall as [|x xs Hx Hxs IH]; simpl; constructor; assumption.
Qed.

(** X6. Always-failing invocations launched together in a freshly loaded
    module, all with the same [maxRetries = m >= 0]: in whatever order
    their waits end, once all of them have ended they have invoked their
    callbacks [m + 1] times plus once each, in total. *)
Theorem concurrent_failures_share_budget m (s : S)
  (specs : list (LoadingOptions S * list jsval)) sched :
  0 <= m -> specs <> [] ->
  Forall (fun x => maxRetries_of (fst x) = m /\ always_fails (fst x) (snd x)) specs ->
  all_finished (run sched (launch s specs)) = true ->
  Z.of_nat (total attempts_made (run sched (launch s specs)))
  = m + 1 + Z.of_nat (List.length specs).
Proof.
  intros Hm Hne Hall Hfin.
  rewrite (attempts_of_finished_pool m Hm sched (launch s specs)
             (launch_accounted m s specs Hm Hall)); [|  | exact Hfin].
  - unfold launch. simpl. rewrite length_map. reflexivity.
  - unfold launch. simpl. destruct specs; [congruence | discriminate].
Qed.

End More.

(** ** Instances *)

Import Samples.

Lemma always_failing_attempts_witness :
  attempts (run_events (options failing (Some 5)) []
              {| retryCount := 2; env := tt; trace := [] |}) = 5%nat.
Proof.
  apply (always_failing_attempts unit (options failing (Some 5)) []
           {| retryCount := 2; env := tt; trace := [] |}).
  intros s. reflexivity.
Defined.

Lemma loading_succeeds_within_budget_witness :
  fst (loading (options flaky (Some 0)) [] (fresh O))
  = Return (JStr (lit "cloned")).
Proof.
  rewrite (loading_succeeds_within_budget nat (options flaky (Some 0)) []
             [Thrown (JStr (lit "ETIMEDOUT"))] (fresh O) 1%nat
             (JStr (lit "cloned")) 2%nat).
  - reflexivity.
  - eapply fails_cons; [reflexivity | apply fails_nil].
  - reflexivity.
  - intros _. unfold maxRetries_of. simpl. lia.
Defined.

Lemma loading_gives_up_after_budget_witness :
  fst (loading (options failing (Some 1)) [] (fresh tt)) = Return JUndefined.
Proof.
  apply (loading_gives_up_after_budget unit (options failing (Some 1)) []
           (repeat (Thrown (JStr (lit "ECONNRESET"))) 3) (fresh tt) tt).
  - repeat (eapply fails_cons; [reflexivity|]). apply fails_nil.
  - reflexivity.
Defined.

Lemma concurrent_failures_share_budget_witness :
  Z.of_nat (total attempts_made
              (run [0; 1; 0; 1; 0; 1]%nat
                   (launch (O, O) [(options failing_left (Some 1), []);
                                   (options failing_right (Some 1), [])])))
  = 4.
Proof.
  apply (concurrent_failures_share_budget (nat * nat) 1 (O, O)
           [(options failing_left (Some 1), []);
            (options failing_right (Some 1), [])]
           [0; 1; 0; 1; 0; 1]%nat).
  - lia.
  - discriminate.
  - repeat (constructor; [split; [reflexivity | intros s; reflexivity]|]).
    constructor.
  - reflexivity.
Defined.

End RunnerExtras.

(* ===================================================================== *)
(** * More properties of [gt] *)
(* ===================================================================== *)

Module VersionExtras.
Import Version Order VersionFacts.

Unset Implicit Arguments.

(** ** The order of doubles *)

Ltac order_case :=
  simpl;
  (split;
   [ intros H; try discriminate H; repeat split; try reflexivity; lia
   | intros (H1 & H2 & H3); try discriminate; try reflexivity; lia ]).

Lemma num_gt_spec x y :
  num_gt x y = true <->
  is_nan x = false /\ is_nan y = false /\ before (position y) (position x).
Proof.
  unfold num_gt, SFltb.
  destruct x as [sx|sx| |sx mx ex], y as [sy|sy| |sy my ey];
    try destruct sx; try destruct sy; try order_case.
  - unfold SFcompare. change (Pos.compare_cont Eq my mx) with (Pos.compare my mx).
    destruct (Z.compare_spec ey ex) as [He|He|He];
      destruct (Pos.compare_spec my mx) as [Hm|Hm|Hm]; order_case.
  - unfold SFcompare. change (Pos.compare_cont Eq my mx) with (Pos.compare my mx).
    destruct (Z.compare_spec ey ex) as [He|He|He];
      destruct (Pos.compare_spec my mx) as [Hm|Hm|Hm]; order_case.
Qed.

Lemma num_strict_ne_spec x y :
  num_strict_ne x y = false <->
  is_nan x = false /\ is_nan y = false /\ position x = position y.
Proof.
  unfold num_strict_ne, SFeqb.
  destruct x as [sx|sx| |sx mx ex], y as [sy|sy| |sy my ey];
    try destruct sx; try destruct sy;
    try (simpl; split;
         [ intros H; try discriminate H; repeat split; reflexivity
         | intros (H1 & H2 & H3); try discriminate; reflexivity ]).
  - unfold SFcompare. change (Pos.compare_cont Eq mx my) with (Pos.compare mx my).
    destruct (Z.compare_spec ex ey) as [He|He|He];
      destruct (Pos.compare_spec mx my) as [Hm|Hm|Hm]; simpl;
      (split;
       [ intros H; try discriminate H; repeat split; try reflexivity;
         f_equal; try f_equal; lia
       | intros (H1 & H2 & H3); try reflexivity; inversion H3; lia ]).
  - unfold SFcompare. change (Pos.compare_cont Eq mx my) with (Pos.compare mx my).
    destruct (Z.compare_spec ex ey) as [He|He|He];
      destruct (Pos.compare_spec mx my) as [Hm|Hm|Hm]; simpl;
      (split;
       [ intros H; try discriminate H; repeat split; try reflexivity;
         f_equal; try f_equal; lia
       | intros (H1 & H2 & H3); try reflexivity; inversion H3; lia ]).
Qed.

Lemma before_trans a b c : before a b -> before b c -> before a c.
Proof.
  destruct a as [[a1 a2] a3], b as [[b1 b2] b3], c as [[c1 c2] c3].
  simpl. lia.
Qed.

Lemma before_irrefl a : ~ before a a.
Proof. destruct a as [[a1 a2] a3]. simpl. lia. Qed.

(** ** Components: numbers, or [undefined] outside the array *)

Lemma greater_spec x y :
  greater x y = true <->
  exists p q, x = Some p /\ y = Some q /\
    is_nan p = false /\ is_nan q = false /\ before (position q) (position p).
Proof.
  destruct x as [p|], y as [q|]; simpl;
    try (split; [discriminate | intros (p' & q' & H1 & H2 & _); discriminate]).
  rewrite num_gt_spec. split.
  - intros (Hp & Hq & Hb). exists p, q. repeat split; assumption.
  - intros (p' & q' & H1 & H2 & Hp & Hq & Hb). inversion H1; inversion H2; subst.
    repeat split; assumption.
Qed.

Lemma strict_ne_false_spec x y :
  strict_ne x y = false <->
  (x = None /\ y = None) \/
  exists p q, x = Some p /\ y = Some q /\
    is_nan p = false /\ is_nan q = false /\ position p = position q.
Proof.
  destruct x as [p|], y as [q|]; simpl.
  - rewrite num_strict_ne_spec. split.
    + intros (Hp & Hq & He). right. exists p, q. repeat split; assumption.
    + intros [[H _]|(p' & q' & H1 & H2 & Hp & Hq & He)]; [discriminate|].
      inversion H1; inversion H2; subst. repeat split; assumption.
  - split; [discriminate|].
    intros [[H _]|(p' & q' & _ & H & _)]; discriminate.
  - split; [discriminate|].
    intros [[_ H]|(p' & q' & H & _)]; discriminate.
  - split; [intros _; left; split; reflexivity | reflexivity].
Qed.

Lemma strict_ne_false_sym x y : strict_ne x y = false -> strict_ne y x = false.
Proof.
  rewrite !strict_ne_false_spec.
  intros [[H1 H2]|(p & q & H1 & H2 & Hp & Hq & He)]; [left; tauto|].
  right. exists q, p. repeat split; try assumption. symmetry. exact He.
Qed.

Lemma strict_ne_sym x y : strict_ne x y = strict_ne y x.
Proof.
  destruct (strict_ne x y) eqn:H1, (strict_ne y x) eqn:H2; try reflexivity.
  - apply strict_ne_false_sym in H2. congruence.
  - apply strict_ne_false_sym in H1. congruence.
Qed.

Lemma strict_ne_false_trans x y z :
  strict_ne x y = false -> strict_ne y z = false -> strict_ne x z = false.
Proof.
  rewrite !strict_ne_false_spec.
  intros [[H1 H2]|(p & q & H1 & H2 & Hp & Hq & He)]
         [[H3 H4]|(q' & r & H3 & H4 & Hq' & Hr & He')]; subst; try discriminate.
  - left. split; reflexivity.
  - inversion H3; subst. right. exists p, r. repeat split; try assumption.
    congruence.
Qed.

Lemma greater_differs x y : greater x y = true -> strict_ne x y = true.
Proof.
  intros H. destruct (strict_ne x y) eqn:E; [reflexivity|]. exfalso.
  apply greater_spec in H. destruct H as (p & q & -> & -> & _ & _ & Hb).
  apply strict_ne_false_spec in E.
  destruct E as [[E _]|(p' & q' & H1 & H2 & _ & _ & He)]; [discriminate|].
  inversion H1; inversion H2; subst. rewrite He in Hb.
  exact (before_irrefl _ Hb).
Qed.

Lemma greater_asym x y : greater x y = true -> greater y x = false.
Proof.
  intros H. destruct (greater y x) eqn:E; [|reflexivity]. exfalso.
  apply greater_spec in H, E.
  destruct H as (p & q & -> & -> & _ & _ & Hb).
  destruct E as (q' & p' & H1 & H2 & _ & _ & Hb').
  inversion H1; inversion H2; subst.
  exact (before_irrefl _ (before_trans _ _ _ Hb Hb')).
Qed.

Lemma greater_trans x y z :
  greater x y = true -> greater y z = true -> greater x z = true.
Proof.
  rewrite !greater_spec.
  intros (p & q & -> & -> & Hp & Hq & Hb) (q' & r & H1 & -> & _ & Hr & Hb').
  inversion H1; subst. exists p, r. repeat split; try assumption.
  eapply before_trans; eassumption.
Qed.

Lemma greater_same_l x y z :
  strict_ne x y = false -> greater y z = true -> greater x z = true.
Proof.
  rewrite strict_ne_false_spec, !greater_spec.
  intros [[_ ->]|(p & q & -> & -> & Hp & Hq & He)] (q' & r & H1 & -> & _ & Hr & Hb);
    [discriminate|].
  inversion H1; subst. exists p, r. repeat split; try assumption.
  rewrite He. exact Hb.
Qed.

Lemma greater_same_r x y z :
  greater x y = true -> strict_ne y z = false -> greater x z = true.
Proof.
  rewrite strict_ne_false_spec, !greater_spec.
  intros (p & q & -> & -> & Hp & Hq & Hb) [[H _]|(q' & r & H1 & -> & _ & Hr & He)];
    [discriminate|].
  inversion H1; subst. exists p, r. repeat split; try assumption.
  rewrite <- He. exact Hb.
Qed.

(** ** The loop is a strict order *)

Lemma gt_loop_asym a b len :
  gt_loop a b 0 len = true -> gt_loop b a 0 len = false.
Proof.
  intros H. destruct (gt_loop_true_inv a b len 0%nat H) as (k & Hk & Heq & Hne & Hgt).
  rewrite (gt_loop_first_difference b a k len 0%nat).
  - apply greater_asym, Hgt.
  - exact Hk.
  - intros j Hj. rewrite strict_ne_sym. apply Heq, Hj.
  - rewrite strict_ne_sym. exact Hne.
Qed.

Lemma gt_loop_trans a b c len :
  gt_loop a b 0 len = true -> gt_loop b c 0 len = true ->
  gt_loop a c 0 len = true.
Proof.
  intros H1 H2.
  destruct (gt_loop_true_inv a b len 0%nat H1) as (k1 & Hk1 & Heq1 & Hne1 & Hgt1).
  destruct (gt_loop_true_inv b c len 0%nat H2) as (k2 & Hk2 & Heq2 & Hne2 & Hgt2).
  assert (Hmin : forall j, (0 <= j < Nat.min k1 k2)%nat ->
            strict_ne (at_index a j) (at_index c j) = false).
  { intros j Hj. eapply strict_ne_false_trans; [apply Heq1 | apply Heq2]; lia. }
  assert (Hat : greater (at_index a (Nat.min k1 k2)) (at_index c (Nat.min k1 k2)) = true).
  { destruct (Nat.lt_trichotomy k1 k2) as [Hlt|[->|Hlt]].
    - rewrite Nat.min_l by lia. eapply greater_same_r; [exact Hgt1|].
      apply Heq2. lia.
    - rewrite Nat.min_id. eapply greater_trans; eassumption.
    - rewrite Nat.min_r by lia. eapply greater_same_l; [|exact Hgt2].
      apply Heq1. lia. }
  rewrite (gt_loop_first_difference a c (Nat.min k1 k2) len 0%nat).
  - exact Hat.
  - lia.
  - exact Hmin.
  - apply greater_differs, Hat.
Qed.

(** X7. [gt] is asymmetric: when one string is greater than another, the
    other is not greater than the one, whatever the strings hold and
    however many components are compared. *)
Theorem gt_asymmetric (v1 v2 : jsstring) (len : nat) :
  gt (JStr v1) (JStr v2) len = Return true ->
  gt (JStr v2) (JStr v1) len = Return false.
Proof.
  unfold gt, gt_strings. simpl. intros H. injection H as H'.
  f_equal. apply gt_loop_asym, H'.
Qed.

(** X8. [gt] is transitive on all strings, segments that convert to
    [NaN] included: with C8 and X7 it is a strict partial order. *)
Theorem gt_transitive (v1 v2 v3 : jsstring) (len : nat) :
  gt (JStr v1) (JStr v2) len = Return true ->
  gt (JStr v2) (JStr v3) len = Return true ->
  gt (JStr v1) (JStr v3) len = Return true.
Proof.
  unfold gt, gt_strings. simpl. intros H1 H2.
  injection H1 as H1'. injection H2 as H2'.
  f_equal. eapply gt_loop_trans; eassumption.
Qed.

(** ** Segments that do not count *)

Lemma split_app sep a b :
  split sep (a ++ sep :: b) = split sep a ++ split sep b.
Proof.
  induction a as [|c a IH]; simpl.
  - rewrite N.eqb_refl. reflexivity.
  - destruct (N.eqb c sep); [rewrite IH; reflexivity|].
    rewrite IH. destruct (split sep a) as [|x xs] eqn:Hs; [|reflexivity].
    exfalso. exact (split_nonempty sep a Hs).
Qed.

Lemma split_no_sep sep z : ~ In sep z -> split sep z = [z].
Proof.
  induction z as [|c z IH]; simpl; intros Hno; [reflexivity|].
  destruct (N.eqb_spec c sep) as [->|_]; [exfalso; apply Hno; left; reflexivity|].
  rewrite IH by (intros H; apply Hno; right; exact H). reflexivity.
Qed.

Lemma firstn_repeat {A} (x : A) k m : firstn k (repeat x m) = repeat x (Nat.min k m).
Proof.
  revert m. induction k as [|k IH]; intros [|m]; simpl; try reflexivity.
  rewrite IH. reflexivity.
Qed.

(** Beyond [len] segments nothing is read. *)
Lemma pad_beyond len v extra :
  (len <= List.length (split dot v))%nat ->
  pad len (v ++ dot :: extra) = pad len v.
Proof.
  intros H. unfold pad. rewrite split_app, map_app, <- app_assoc, !firstn_app.
  rewrite length_map.
  replace (len - List.length (split dot v))%nat with 0%nat by lia.
  reflexivity.
Qed.

(** A last segment that converts to [+0] is as good as none. *)
Lemma pad_zero_segment len v z :
  ~ In dot z -> Number z = pzero ->
  pad len (v ++ dot :: z) = pad len v.
Proof.
  intros Hz Hn. unfold pad.
  rewrite split_app, (split_no_sep dot z Hz), map_app. simpl. rewrite Hn.
  rewrite <- app_assoc. simpl.
  change (pzero :: repeat pzero len) with (repeat pzero (Datatypes.S len)).
  rewrite !firstn_app, !firstn_repeat. f_equal. f_equal. lia.
Qed.

(** X10. Segments beyond the first [len] are never read: text appended
    after a dot to a version that has [len] segments already changes no
    comparison, on either side. *)
Theorem gt_ignores_segments_beyond_len (v w extra : jsstring) (len : nat) :
  (len <= List.length (split dot v))%nat ->
  gt (JStr (v ++ dot :: extra)) (JStr w) len = gt (JStr v) (JStr w) len /\
  gt (JStr w) (JStr (v ++ dot :: extra)) len = gt (JStr w) (JStr v) len.
Proof.
  intros H. unfold gt, gt_strings. simpl. rewrite (pad_beyond len v extra H).
  split; reflexivity.
Qed.

(** X9. A trailing segment that converts to [+0] (such as "0", or the
    empty segment after a final dot) is the same as no segment: writing
    it or leaving it out changes no comparison, on either side and for
    every [len]. *)
Theorem gt_zero_segment_is_padding (v w z : jsstring) (len : nat) :
  ~ In dot z -> Number z = pzero ->
  gt (JStr (v ++ dot :: z)) (JStr w) len = gt (JStr v) (JStr w) len /\
  gt (JStr w) (JStr (v ++ dot :: z)) len = gt (JStr w) (JStr v) len.
Proof.
  intros Hz Hn. unfold gt, gt_strings. simpl.
  rewrite (pad_zero_segment len v z Hz Hn). split; reflexivity.
Qed.

(** ** Instances *)

Lemma gt_asymmetric_witness :
  gt (JStr (lit "1.9.9")) (JStr (lit "2.0.0")) 3 = Return false.
Proof.
  apply (gt_asymmetric (lit "2.0.0") (lit "1.9.9") 3). reflexivity.
Defined.

Lemma gt_transitive_witness :
  gt (JStr (lit "2.0.0")) (JStr (lit "1.2")) 3 = Return true.
Proof.
  apply (gt_transitive (lit "2.0.0") (lit "1.9.9") (lit "1.2") 3);
    reflexivity.
Defined.

Lemma gt_zero_segment_is_padding_witness :
  gt (JStr (lit "1.2" ++ dot :: lit "0")) (JStr (lit "1.2")) 3
  = gt (JStr (lit "1.2")) (JStr (lit "1.2")) 3.
Proof.
  apply (gt_zero_segment_is_padding (lit "1.2") (lit "1.2") (lit "0") 3).
  - vm_compute. intuition discriminate.
  - reflexivity.
Defined.

Lemma gt_ignores_segments_beyond_len_witness :
  gt (JStr (lit "1.2.3" ++ dot :: lit "9")) (JStr (lit "1.2.3")) 3
  = gt (JStr (lit "1.2.3")) (JStr (lit "1.2.3")) 3.
Proof.
  apply (gt_ignores_segments_beyond_len (lit "1.2.3") (lit "1.2.3") (lit "9") 3).
  vm_compute. lia.
Defined.

End VersionExtras.

(* ===================================================================== *)
(** * More properties of the lookup and of the check *)
(* ===================================================================== *)

Module RegistryExtras.
Import Version Order VersionFacts Registry RegistryFacts.

Unset Implicit Arguments.

(** X11. [checkVersion] rejects exactly when the lookup returns a value
    that is neither [undefined] nor a string (a number, [null], an object
    found at [dist-tags.latest]): [gt] then fails on [v.split], nothing
    has been printed, and the error reaches the caller. *)
Theorem checkVersion_rejects_iff net name version :
  is_throw (fst (checkVersion net name version)) = true <->
  exists latest,
    getNpmLatestVersion net name = (Return latest, []) /\
    is_string latest = false /\ is_undefined latest = false.
Proof.
  pose proof (getNpmLatestVersion_returns net name) as Hr.
  destruct (fst (getNpmLatestVersion net name)) as [latest|e] eqn:Hl; [|discriminate].
  rewrite (checkVersion_eq net name version latest Hl).
  assert (Hout : is_undefined latest = false ->
                 getNpmLatestVersion net name = (Return latest, [])).
  { intros Hu. revert Hl. unfold getNpmLatestVersion.
    destruct (bind (net (NPM_URL ++ name)) _) as [v|e]; simpl; intros Hl;
      inversion Hl; subst; [reflexivity | discriminate]. }
  split.
  - intros H. exists latest.
    destruct latest; simpl in *;
      try (split; [apply Hout; reflexivity | split; reflexivity]);
      destruct (gt_strings _ _ _); discriminate.
  - intros (l & Hg & Hs & Hu). rewrite Hg in Hl. simpl in Hl. inversion Hl; subst.
    destruct latest; simpl in *; try discriminate; reflexivity.
Qed.

Lemma getNpmLatestVersion_defined net name v :
  is_undefined v = false ->
  fst (getNpmLatestVersion net name) = Return v ->
  snd (getNpmLatestVersion net name) = [].
Proof.
  intros Hv. unfold getNpmLatestVersion.
  destruct (bind (net (NPM_URL ++ name)) _) as [x|e]; simpl; intros H;
    [reflexivity|]. inversion H; subst. discriminate.
Qed.

(** X12. [getNpmLatestVersion] returns a value other than [undefined]
    exactly when the registry answered and the body holds that value at
    [dist-tags.latest]; it is returned as it is, of whatever type, and
    nothing is logged. *)
Theorem getNpmLatestVersion_passes_through net name v :
  is_undefined v = false ->
  (fst (getNpmLatestVersion net name) = Return v <->
   exists data tags,
     net (NPM_URL ++ name) = Return data /\
     read data (lit "dist-tags") = Return tags /\
     read tags (lit "latest") = Return v) /\
  (fst (getNpmLatestVersion net name) = Return v ->
   snd (getNpmLatestVersion net name) = []).
Proof.
  intros Hv. unfold getNpmLatestVersion.
  destruct (net (NPM_URL ++ name)) as [data|e] eqn:Hnet; simpl.
  - destruct (read data (lit "dist-tags")) as [tags|e] eqn:Htags; simpl.
    + destruct (read tags (lit "latest")) as [x|e] eqn:Hlatest; simpl.
      * split; [|reflexivity]. split.
        -- intros H. inversion H; subst. exists data, tags. auto.
        -- intros (d & t & Hd & Ht & Hx). inversion Hd; subst.
           rewrite Htags in Ht. inversion Ht; subst. congruence.
      * split.
        -- split; [intros H; inversion H; subst; discriminate|].
           intros (d & t & Hd & Ht & Hx). inversion Hd; subst.
           rewrite Htags in Ht. inversion Ht; subst. congruence.
        -- intros H; inversion H; subst; discriminate.
    + split.
      * split; [intros H; inversion H; subst; discriminate|].
        intros (d & t & Hd & Ht & Hx). inversion Hd; subst. congruence.
      * intros H; inversion H; subst; discriminate.
  - split.
    + split; [intros H; inversion H; subst; discriminate|].
      intros (d & t & Hd & _). discriminate.
    + intros H; inversion H; subst; discriminate.
Qed.

(** X13. When the lookup returns a version string and both it and the
    current version are made of plain integers, [checkVersion] prints
    the two-line advisory exactly when the looked-up version is
    lexicographically greater as a tuple of integers, and prints nothing
    otherwise; it does not fail. *)
Theorem checkVersion_plain_versions net name latest version :
  fst (getNpmLatestVersion net name) = Return (JStr latest) ->
  (forall j, (j < default_len)%nat ->
     plain_component latest j /\ plain_component version j) ->
  checkVersion net name version
  = (Return JUndefined,
     if lex_gt (values default_len latest) (values default_len version)
     then advisory (JStr latest) version else []).
Proof.
  intros Hl Hp. rewrite (checkVersion_eq net name version (JStr latest) Hl).
  assert (Hout : snd (getNpmLatestVersion net name) = []).
  { apply (getNpmLatestVersion_defined net name (JStr latest) eq_refl Hl). }
  rewrite Hout. unfold gt. simpl bind.
  rewrite (gt_strings_plain latest version default_len Hp).
  destruct (lex_gt _ _); reflexivity.
Qed.

(** ** Instances *)

Import Samples.

Lemma getNpmLatestVersion_passes_through_witness :
  fst (getNpmLatestVersion (answering (tagged (lit "1.2.0"))) (lit "action-cli"))
  = Return (JStr (lit "1.2.0")).
Proof.
  apply (proj2 (proj1 (getNpmLatestVersion_passes_through
           (answering (tagged (lit "1.2.0"))) (lit "action-cli")
           (JStr (lit "1.2.0")) eq_refl))).
  exists (tagged (lit "1.2.0")), (JObj [(lit "latest", JStr (lit "1.2.0"))]).
  repeat split.
Defined.

Lemma checkVersion_plain_versions_witness :
  checkVersion (answering (tagged (lit "1.10.0"))) (lit "action-cli") (lit "1.9.3")
  = (Return JUndefined, advisory (JStr (lit "1.10.0")) (lit "1.9.3")).
Proof.
  apply (checkVersion_plain_versions (answering (tagged (lit "1.10.0")))
           (lit "action-cli") (lit "1.10.0") (lit "1.9.3")).
  - reflexivity.
  - intros j Hj. unfold default_len in Hj.
    destruct j as [|[|[|j]]]; [| | |lia];
      (split; (split; [split; [discriminate | repeat constructor] | reflexivity])).
Defined.

End RegistryExtras.

(* ===================================================================== *)
(** * Properties of [getDefaultBranch] and [isPackageManger] *)
(* ===================================================================== *)

Module ProjectFacts.
Import Runner Project.

Unset Implicit Arguments.

Lemma starts_with_spec p s :
  starts_with p s = true <-> exists post, s = p ++ post.
Proof.
  revert s. induction p as [|a p IH]; intros s; simpl.
  - split; [intros _; exists s; reflexivity | reflexivity].
  - destruct s as [|b s].
    + split; [discriminate | intros [post H]; discriminate].
    + rewrite andb_true_iff, N.eqb_eq, IH. split.
      * intros [-> [post ->]]. exists post. reflexivity.
      * intros [post H]. inversion H; subst. split; [reflexivity | eauto].
Qed.

Lemma includes_spec s t :
  includes s t = true <-> exists pre post, s = pre ++ t ++ post.
Proof.
  induction s as [|c s IH].
  - simpl. rewrite orb_false_r, starts_with_spec. split.
    + intros [post H]. exists [], post. exact H.
    + intros (pre & post & H). destruct pre; [exists post; exact H | discriminate].
  - cbn [includes]. rewrite orb_true_iff, starts_with_spec, IH. split.
    + intros [[post H]|(pre & post & H)].
      * exists [], post. exact H.
      * exists (c :: pre), post. rewrite H. reflexivity.
    + intros (pre & post & H). destruct pre as [|c' pre].
      * left. exists post. exact H.
      * right. inversion H; subst. exists pre, post. reflexivity.
Qed.

(** X14. [getDefaultBranch] answers "master" for every URL in which the
    text "gitee.com" occurs, wherever it occurs (host, path or query) and
    in this spelling only, whatever default was passed; for every other
    URL it answers the default passed, or "main" when none was. *)
Theorem getDefaultBranch_spec url defBranch :
  ((exists pre post, url = pre ++ lit "gitee.com" ++ post) ->
   getDefaultBranch url defBranch = lit "master") /\
  ((forall pre post, url <> pre ++ lit "gitee.com" ++ post) ->
   getDefaultBranch url defBranch = default (lit "main") defBranch).
Proof.
  unfold getDefaultBranch. split; intros H.
  - apply includes_spec in H. rewrite H. reflexivity.
  - destruct (includes url (lit "gitee.com")) eqn:E; [|reflexivity].
    apply includes_spec in E. destruct E as (pre & post & E).
    exfalso. exact (H pre post E).
Qed.

Lemma string_eqb_eq a b : string_eqb a b = true <-> a = b.
Proof.
  unfold string_eqb. destruct (list_eq_dec N.eq_dec a b); split; congruence.
Qed.

Lemma array_includes_In xs x : array_includes xs x = true <-> In x xs.
Proof.
  unfold array_includes. rewrite existsb_exists. split.
  - intros (y & Hy & E). apply string_eqb_eq in E. subst. exact Hy.
  - intros H. exists x. split; [exact H | apply string_eqb_eq; reflexivity].
Qed.

(** X15. [isPackageManger] returns a name of [PACKAGE_MANAGER] unchanged
    and replaces every other name by the fallback ("pnpm" when none is
    passed); its result is a known package manager whenever the fallback
    is one, and applying it twice is the same as applying it once. *)
Theorem isPackageManger_spec name pm :
  (In name PACKAGE_MANAGER -> isPackageManger name pm = name) /\
  (~ In name PACKAGE_MANAGER ->
   isPackageManger name pm = default (lit "pnpm") pm) /\
  (In (default (lit "pnpm") pm) PACKAGE_MANAGER ->
   In (isPackageManger name pm) PACKAGE_MANAGER) /\
  isPackageManger (isPackageManger name pm) pm = isPackageManger name pm.
Proof.
  unfold isPackageManger.
  destruct (array_includes PACKAGE_MANAGER name) eqn:E.
  - pose proof (proj1 (array_includes_In _ _) E) as Hin.
    repeat split; try tauto. rewrite E. reflexivity.
  - assert (Hnot : ~ In name PACKAGE_MANAGER).
    { intros Hin. apply array_includes_In in Hin. congruence. }
    repeat split; try tauto.
    destruct (array_includes PACKAGE_MANAGER (default (lit "pnpm") pm)); reflexivity.
Qed.

(** ** Instances *)

Lemma getDefaultBranch_witness :
  getDefaultBranch (lit "https://github.com/mirror/gitee.com-tools") (Some (lit "dev"))
  = lit "master".
Proof.
  apply (proj1 (getDefaultBranch_spec
                  (lit "https://github.com/mirror/gitee.com-tools")
                  (Some (lit "dev")))).
  exists (lit "https://github.com/mirror/"), (lit "-tools"). reflexivity.
Defined.

Lemma isPackageManger_witness :
  In (isPackageManger (lit "NPM") None) PACKAGE_MANAGER.
Proof.
  apply (proj1 (proj2 (proj2 (isPackageManger_spec (lit "NPM") None)))).
  vm_compute. tauto.
Defined.

End ProjectFacts.

(* ===================================================================== *)
(** * Properties of [readTemplates] *)
(* ===================================================================== *)

Module TemplatesFacts.
Import Templates.

Unset Implicit Arguments.

Section Facts.
Variable parse : jsstring -> completion jsval.

Lemma on_read_error err p :
  on_read parse (ReadError err) p =
  match parse (lit "undefined") with
  | Return v =>
      (resolve v (reject is_required (reject (cannot_read err) p)), None)
  | Throw e => (reject is_required (reject (cannot_read err) p), Some e)
  end.
Proof. reflexivity. Qed.

Lemma on_read_empty p :
  on_read parse (ReadData []) p =
  match parse [] with
  | Return v => (resolve v (reject is_required p), None)
  | Throw e => (reject is_required p, Some e)
  end.
Proof. reflexivity. Qed.

Lemma on_read_text c r p :
  on_read parse (ReadData (c :: r)) p =
  match parse (c :: r) with
  | Return v => (resolve v p, None)
  | Throw e => (p, Some e)
  end.
Proof. reflexivity. Qed.

(** X16. [JSON.parse] throws on the empty text and on the text
    "undefined". So when reading the file fails, the promise of
    [readTemplates] is rejected with the "Can not read" reason, not with
    the second one, and when the file is empty it is rejected with
    "templates.json is required"; in both cases the callback goes on to
    [JSON.parse] and its exception escapes the callback. *)
Theorem readTemplates_rejects_once :
  is_throw (parse []) = true ->
  is_throw (parse (lit "undefined")) = true ->
  (forall err, exists e,
     readTemplates parse (Unreadable err)
     = (Unreadable err, Rejected (cannot_read err), Some e)) /\
  (exists e,
     readTemplates parse (Holding [])
     = (Holding [], Rejected is_required, Some e)).
Proof.
  intros Hempty Hundef. split.
  - intros err. unfold readTemplates. simpl existsSync. cbv iota.
    simpl readFile. rewrite on_read_error.
    destruct (parse (lit "undefined")) as [v|e]; [discriminate|].
    exists e. reflexivity.
  - unfold readTemplates. simpl existsSync. cbv iota.
    simpl readFile. rewrite on_read_empty.
    destruct (parse []) as [v|e]; [discriminate|].
    exists e. reflexivity.
Qed.

(** X17. When the file holds a text that is not empty and does not
    parse, the promise of [readTemplates] is neither fulfilled nor
    rejected: it stays pending, and the exception of [JSON.parse]
    escapes the read's callback. *)
Theorem readTemplates_never_settles c r e :
  parse (c :: r) = Throw e ->
  readTemplates parse (Holding (c :: r)) = (Holding (c :: r), Pending, Some e).
Proof.
  intros Hp. unfold readTemplates. simpl existsSync. cbv iota.
  simpl readFile. rewrite on_read_text, Hp. reflexivity.
Qed.

(** X18. When the file holds a non-empty text that parses,
    [readTemplates] leaves the disk as it is and fulfils its promise with
    the parsed value; when the file is missing it first writes "{}" and
    fulfils with what that parses to. *)
Theorem readTemplates_fulfils :
  (forall c r v, parse (c :: r) = Return v ->
     readTemplates parse (Holding (c :: r))
     = (Holding (c :: r), Fulfilled v, None)) /\
  (forall v, parse (lit "{}") = Return v ->
     readTemplates parse Missing = (Holding (lit "{}"), Fulfilled v, None)).
Proof.
  split.
  - intros c r v Hp. unfold readTemplates. simpl existsSync. cbv iota.
    simpl readFile. rewrite on_read_text, Hp. reflexivity.
  - intros v Hp. unfold readTemplates. simpl existsSync. cbv iota.
    unfold outputFileSync. simpl readFile.
    change (lit "{}") with (123%N :: [125%N]) in *.
    rewrite on_read_text, Hp. reflexivity.
Qed.

End Facts.

Lemma readTemplates_rejects_once_witness :
  exists e,
    readTemplates parse_braces (Holding [])
    = (Holding [], Rejected is_required, Some e).
Proof.
  apply (proj2 (readTemplates_rejects_once parse_braces eq_refl eq_refl)).
Defined.

Lemma readTemplates_never_settles_witness :
  readTemplates parse_braces (Holding (lit "{"))
  = (Holding (lit "{"), Pending, Some (Thrown (JStr (lit "SyntaxError")))).
Proof.
  apply (readTemplates_never_settles parse_braces 123%N []
           (Thrown (JStr (lit "SyntaxError")))).
  reflexivity.
Defined.

Lemma readTemplates_fulfils_witness :
  readTemplates parse_braces Missing
  = (Holding (lit "{}"), Fulfilled (JObj []), None).
Proof.
  apply (proj2 (readTemplates_fulfils parse_braces) (JObj [])).
  reflexivity.
Defined.

End TemplatesFacts.

(* ===================================================================== *)
(** * Properties of [HTTP_URL_REGEX] *)
(* ===================================================================== *)

Module UrlPatternFacts.
Import UrlPattern.
Unset Implicit Arguments.

(** ** Derivatives decide matching *)

Lemma nullable_spec r : nullable r = true <-> matches r [].
Proof.
  induction r as [| |p|r1 IH1 r2 IH2|r1 IH1 r2 IH2|r IH]; simpl.
  - split; [discriminate | intros H; inversion H].
  - split; [intros _; constructor | reflexivity].
  - split; [discriminate | intros H; inversion H].
  - rewrite andb_true_iff, IH1, IH2. split.
    + intros [H1 H2]. apply (MSeq r1 r2 [] [] H1 H2).
    + intros H. inversion H as [| |? ? s1 s2 H1 H2| | | |]; subst.
      match goal with
      | E : _ ++ _ = [] |- _ => apply app_eq_nil in E; destruct E; subst
      end.
      split; assumption.
  - rewrite orb_true_iff, IH1, IH2. split.
    + intros [H|H]; [apply MAltL | apply MAltR]; exact H.
    + intros H. inversion H; subst; [left | right]; assumption.
  - split; [intros _; constructor | reflexivity].
Qed.

(** A non-empty match of [r*] starts with a non-empty match of [r]. *)
Lemma star_cons r c s :
  matches (Star r) (c :: s) ->
  exists s1 s2, s = s1 ++ s2 /\ matches r (c :: s1) /\ matches (Star r) s2.
Proof.
  intros H. remember (Star r) as r' eqn:Er. remember (c :: s) as t eqn:Et.
  revert s Et. induction H as [| | | | | |r0 s1 s2 H1 _ H2 IH2];
    intros u Et; try discriminate.
  inversion Er; subst r0.
  destruct s1 as [|c1 s1].
  - simpl in Et. apply (IH2 Er u Et).
  - simpl in Et. inversion Et; subst. exists s1, s2. auto.
Qed.

Lemma deriv_spec c r : forall s, matches (deriv c r) s <-> matches r (c :: s).
Proof.
  induction r as [| |p|r1 IH1 r2 IH2|r1 IH1 r2 IH2|r IH]; intros s; simpl.
  - split; intros H; inversion H.
  - split; intros H; inversion H.
  - destruct (p c) eqn:Hp; split; intros H; inversion H; subst.
    + constructor. exact Hp.
    + constructor.
    + congruence.
  - assert (Hseq : matches (Seq (deriv c r1) r2) s <->
                   exists s1 s2, s = s1 ++ s2 /\ matches r1 (c :: s1) /\ matches r2 s2).
    { split.
      - intros H. inversion H as [| |? ? s1 s2 H1 H2| | | |]; subst.
        exists s1, s2. rewrite <- IH1. auto.
      - intros (s1 & s2 & -> & H1 & H2). constructor; [apply IH1|]; assumption. }
    assert (Hinv : matches (Seq r1 r2) (c :: s) <->
                   (exists s1 s2, s = s1 ++ s2 /\ matches r1 (c :: s1) /\ matches r2 s2)
                   \/ (matches r1 [] /\ matches r2 (c :: s))).
    { split.
      - intros H. inversion H as [| |? ? s1 s2 H1 H2| | | |]; subst.
        match goal with E : s1 ++ s2 = c :: s |- _ => rename E into Es end.
        destruct s1 as [|c1 s1]; simpl in Es.
        + right. subst. auto.
        + inversion Es; subst. left. exists s1, s2. auto.
      - intros [(s1 & s2 & -> & H1 & H2)|[H1 H2]].
        + apply (MSeq r1 r2 (c :: s1) s2 H1 H2).
        + apply (MSeq r1 r2 [] (c :: s) H1 H2). }
    rewrite Hinv. destruct (nullable r1) eqn:Hn.
    + apply nullable_spec in Hn. split.
      * intros H. inversion H; subst.
        -- left. apply Hseq. assumption.
        -- right. split; [exact Hn | apply IH2; assumption].
      * intros [H|[_ H]]; [apply MAltL, Hseq, H | apply MAltR, IH2, H].
    + rewrite Hseq. split; [tauto|]. intros [H|[H _]]; [exact H|].
      apply nullable_spec in H. congruence.
  - split.
    + intros H. inversion H; subst;
        [apply MAltL, IH1 | apply MAltR, IH2]; assumption.
    + intros H. inversion H; subst;
        [apply MAltL, IH1 | apply MAltR, IH2]; assumption.
  - split.
    + intros H. inversion H as [| |? ? s1 s2 H1 H2| | | |]; subst.
      apply (MStarS r (c :: s1) s2); [apply IH|]; assumption.
    + intros H. destruct (star_cons r c s H) as (s1 & s2 & -> & H1 & H2).
      constructor; [apply IH|]; assumption.
Qed.

(** [test] holds exactly when the pattern matches a prefix. *)
Lemma test_spec s : forall r,
  test r s = true <-> exists p q, s = p ++ q /\ matches r p.
Proof.
  induction s as [|c s IH]; intros r; simpl.
  - rewrite orb_false_r, nullable_spec. split.
    + intros H. exists [], []. auto.
    + intros (p & q & E & H). symmetry in E. apply app_eq_nil in E.
      destruct E; subst. exact H.
  - rewrite orb_true_iff, nullable_spec, IH. split.
    + intros [H|(p & q & -> & H)].
      * exists [], (c :: s). auto.
      * exists (c :: p), q. split; [reflexivity | apply deriv_spec, H].
    + intros (p & q & E & H). destruct p as [|c' p].
      * left. exact H.
      * inversion E; subst. right. exists p, q.
        split; [reflexivity | apply deriv_spec, H].
Qed.

(** ** What the pattern is made of *)

Lemma matches_text t : forall s, matches (text t) s -> s = t.
Proof.
  induction t as [|c t IH]; intros s H; simpl in H.
  - inversion H. reflexivity.
  - inversion H as [| |? ? s1 s2 H1 H2| | | |]; subst.
    inversion H1 as [|p c' Hc| | | | |]; subst.
    apply N.eqb_eq in Hc. subst. simpl. f_equal. apply IH, H2.
Qed.

Lemma text_matches t : matches (text t) t.
Proof.
  induction t as [|c t IH]; simpl; [constructor|].
  apply (MSeq _ _ [c] t); [constructor; apply N.eqb_refl | exact IH].
Qed.

Lemma matches_label l :
  matches label l -> exists c m, l = c :: m ++ [46%N] /\ first_ok c = true.
Proof.
  unfold label. intros H.
  inversion H as [| |? ? s1 s2 H1 H2| | | |]; subst.
  inversion H1 as [|p c Hc| | | | |]; subst.
  inversion H2 as [| |? ? s3 s4 H3 H4| | | |]; subst.
  apply (matches_text (lit ".")) in H4. subst. exists c, s3. auto.
Qed.

Lemma star_label_end s :
  matches (Star label) s -> s = [] \/ exists x, s = x ++ [46%N].
Proof.
  intros H. remember (Star label) as r eqn:Er.
  induction H as [| | | | | |r0 s1 s2 H1 _ H2 IH2]; try discriminate.
  - left. reflexivity.
  - inversion Er; subst r0. right.
    destruct (IH2 Er) as [->|[x ->]].
    + destruct (matches_label s1 H1) as (c & m & -> & _).
      exists (c :: m). rewrite app_nil_r. reflexivity.
    + exists (s1 ++ x). rewrite app_assoc. reflexivity.
Qed.

Lemma matches_plus_label p :
  matches (plus label) p ->
  exists c a, p = c :: a ++ [46%N] /\ first_ok c = true.
Proof.
  unfold plus. intros H.
  inversion H as [| |? ? s1 s2 H1 H2| | | |]; subst.
  destruct (matches_label s1 H1) as (c & m & -> & Hc).
  destruct (star_label_end s2 H2) as [->|[x ->]].
  - exists c, m. rewrite app_nil_r. auto.
  - exists c, (m ++ [46%N] ++ x). split; [|exact Hc].
    simpl. rewrite <- !app_assoc. reflexivity.
Qed.

Lemma matches_tld t :
  matches (between 2 6 (Class lower)) t ->
  exists b c rest, t = b :: c :: rest /\ lower b = true /\ lower c = true.
Proof.
  unfold between. simpl exactly. intros H.
  inversion H as [| |? ? s1 s2 H1 H2| | | |]; subst.
  inversion H1 as [| |? ? s3 s4 H3 H4| | | |]; subst.
  inversion H3 as [|p b Hb| | | | |]; subst.
  inversion H4 as [| |? ? s5 s6 H5 H6| | | |]; subst.
  inversion H5 as [|p c Hc| | | | |]; subst.
  inversion H6; subst.
  exists b, c, s2. auto.
Qed.

Lemma matches_scheme_start p :
  matches (opt scheme) p ->
  p = [] \/ exists c rest, p = c :: rest /\ first_ok c = true.
Proof.
  unfold opt, scheme. intros H.
  inversion H as [| | |? ? ? H1|? ? ? H1| |]; subst;
    [|inversion H1; left; reflexivity].
  right.
  inversion H1 as [| |? ? s1 s2 H2 _| | | |]; subst.
  inversion H2 as [| |? ? s3 s4 H3 _| | | |]; subst.
  inversion H3 as [| |? ? s5 s6 H4 _| | | |]; subst.
  inversion H4 as [| | |? ? ? H5|? ? ? H5| |]; subst;
    first [apply (matches_text (lit "ht")) in H5
          | apply (matches_text (lit "f")) in H5];
    subst; simpl; eexists; eexists;
    (split; [reflexivity|]); reflexivity.
Qed.

Lemma upto_matches p n : forall m,
  Forall (fun c => p c = true) m -> (List.length m <= n)%nat ->
  matches (upto n (Class p)) m.
Proof.
  induction n as [|n IH]; intros m Hm Hlen.
  - destruct m; [constructor | simpl in Hlen; lia].
  - simpl. destruct m as [|c m]; [apply MAltR; constructor|].
    inversion Hm; subst. apply MAltL.
    apply (MSeq _ _ [c] m); [constructor; assumption|].
    apply IH; [assumption | simpl in Hlen; lia].
Qed.

Lemma label_matches c m :
  first_ok c = true -> Forall (fun x => inner_ok x = true) m ->
  (List.length m <= 64)%nat ->
  matches label (c :: m ++ [46%N]).
Proof.
  intros Hc Hm Hlen. unfold label.
  apply (MSeq _ _ [c] (m ++ [46%N])); [constructor; exact Hc|].
  apply (MSeq _ _ m [46%N]); [|apply (text_matches (lit "."))].
  destruct m as [|x m0]; [apply MAltR; constructor|].
  destruct (@exists_last _ (x :: m0) ltac:(discriminate)) as (m' & z & E).
  rewrite E in *. apply Forall_app in Hm. destruct Hm as [Hm' Hz].
  inversion Hz; subst. rewrite length_app in Hlen. simpl in Hlen.
  apply MAltL. apply (MSeq _ _ m' [z]); [|constructor; assumption].
  apply upto_matches; [assumption | lia].
Qed.

(** ** What the pattern accepts *)


(** X20. A string the pattern accepts starts with a code unit that is
    neither white space, nor "-", nor one of [! @ # $ % ^ & * ? .], and
    holds, after at least one code unit, a dot followed by two lower-case
    letters. *)
Theorem url_pattern_requires (s : jsstring) :
  test HTTP_URL_REGEX s = true ->
  (exists c rest, s = c :: rest /\ first_ok c = true) /\
  (exists a b c rest,
     a <> [] /\ s = a ++ [46%N; b; c] ++ rest /\
     lower b = true /\ lower c = true).
Proof.
  rewrite test_spec. intros (p & q & -> & H). unfold HTTP_URL_REGEX in H.
  inversion H as [| |? ? p0 s1 H0 H1| | | |]; subst.
  inversion H1 as [| |? ? p1 s2 H2 H3| | | |]; subst.
  inversion H3 as [| |? ? p2 p3 H4 _| | | |]; subst.
  destruct (matches_plus_label p1 H2) as (c & a & -> & Hc).
  destruct (matches_tld p2 H4) as (b & d & rest & -> & Hb & Hd).
  split.
  - destruct (matches_scheme_start p0 H0) as [->|(c0 & r0 & -> & Hc0)].
    + exists c. eexists. split; [reflexivity | exact Hc].
    + exists c0. eexists. split; [reflexivity | exact Hc0].
  - exists (p0 ++ c :: a), b, d, (rest ++ p3 ++ q).
    split; [destruct p0; discriminate|]. split; [|split; assumption].
    repeat (rewrite <- ?app_assoc; simpl). reflexivity.
Qed.

(** X21. The scheme is not restricted by the pattern: every string made
    of one allowed code unit, up to 64 more that may include ":" and "/",
    a dot and two lower-case letters is accepted, and so is everything
    that continues it. *)
Theorem url_pattern_accepts_any_label (c b d : N) (m rest : jsstring) :
  first_ok c = true ->
  Forall (fun x => inner_ok x = true) m ->
  (List.length m <= 64)%nat ->
  lower b = true -> lower d = true ->
  test HTTP_URL_REGEX (c :: m ++ [46%N; b; d] ++ rest) = true.
Proof.
  intros Hc Hm Hlen Hb Hd. apply test_spec.
  exists (c :: m ++ [46%N; b; d]), rest.
  split; [simpl; rewrite <- app_assoc; reflexivity|].
  unfold HTTP_URL_REGEX.
  apply (MSeq _ _ [] (c :: m ++ [46%N; b; d])); [apply MAltR; constructor|].
  replace (c :: m ++ [46%N; b; d]) with ((c :: m ++ [46%N]) ++ [b; d])
    by (simpl; rewrite <- app_assoc; reflexivity).
  apply (MSeq _ _ (c :: m ++ [46%N]) [b; d]).
  - unfold plus.
    replace (c :: m ++ [46%N]) with ((c :: m ++ [46%N]) ++ [])
      by apply app_nil_r.
    apply MSeq; [apply label_matches; assumption | constructor].
  - apply (MSeq _ _ [b; d] []); [|apply MAltR; constructor].
    unfold between. simpl.
    apply (MSeq _ _ [b; d] []); [|apply MAltR; constructor].
    apply (MSeq _ _ [b] [d]); [constructor; assumption|].
    apply (MSeq _ _ [d] []); [constructor; assumption | constructor].
Qed.

(** ** Instances *)


Lemma url_pattern_requires_witness :
  (exists c rest, lit "ftp://files.example.org" = c :: rest /\ first_ok c = true) /\
  (exists a b c rest,
     a <> [] /\ lit "ftp://files.example.org" = a ++ [46%N; b; c] ++ rest /\
     lower b = true /\ lower c = true).
Proof.
  apply (url_pattern_requires (lit "ftp://files.example.org")). reflexivity.
Defined.

Lemma url_pattern_accepts_any_label_witness :
  test HTTP_URL_REGEX (lit "javascript://x.co") = true.
Proof.
  apply (url_pattern_accepts_any_label 106 99 111 (lit "avascript://x") []).
  - reflexivity.
  - repeat constructor.
  - simpl. lia.
  - reflexivity.
  - reflexivity.
Defined.

End UrlPatternFacts.
